(** * Verification of the NeMo ASR evaluation driver [nemo_asr/run_eval.py]

    The script is orchestration code: it loads a model and a dataset, writes
    the audio of every sample to a cache directory, sorts the samples by
    decreasing duration, transcribes them, normalises the transcriptions,
    writes a manifest, scores WER and prints WER and RTFX.

    The embedding follows the script statement by statement.

    - Effects are threaded through a state-and-exception monad [M] over a
      [World] holding the file system (a finite map from paths to nodes) and
      the trace of the calls made to the outside (model, dataset library,
      audio library, clock, metric, manifest writer, standard output).
    - What the outside computes is a record [Env] of functions: the theorems
      hold for every such record, and [demo_env] is one concrete record on
      which the script can be run inside Rocq.
    - Python's [int] is [Z].  Python's [float] is read as an exact rational
      [Q]: [len(a) / 16_000] is the rational [len(a) # 16000].  Binary64
      rounding is monotone, and injective on these quotients for arrays of
      fewer than 2^51 elements, so the order of two durations is the order of
      the two rationals.  The two numbers printed at the end are results of
      binary64 arithmetic on readings of the wall clock; [round2] and
      [py_sum] compute them on exact rationals, which can differ from the
      interpreter in the last digit.  No theorem below states their digits,
      except for the zero printed on an empty dataset, where both agree.
    - The dataset is a finite list of rows; the calls of the outside are
      taken to return (none is wrapped in an exception handler by the
      script).  A statement about what is in the file system after a call is
      made under the hypothesis that the call returned.
    - A path is the string the script computes.  Two strings are two nodes
      of the file system: this is the file system as [os.path.exists] sees
      it when the ids of the samples are plain file names, with no ["/"]
      ([has_slash]); a statement that says what the path of a sample holds
      after a call is made for such ids. *)

From Stdlib Require Import QArith Qround.
From stdpp Require Import gmap strings list fin_maps pretty sorting.

Local Open Scope Z_scope.
Local Open Scope string_scope.
Local Open Scope list_scope.

(** ** Data *)

(** [sample["array"]] and the sample's own rate, [sample["sampling_rate"]]. *)
Record Audio := { array : list Q; sampling_rate : Z }.

(** A dataset row as [download_audio_files] reads it: the columns ["id"],
    ["audio"] and ["norm_text"]. *)
Record Sample := { s_id : string; s_audio : Audio; s_norm_text : string }.

(** The [argparse] namespace. *)
Record Args := {
  model_id : string;
  dataset_path : string;
  dataset : string;
  split : string;
  device : Z;
  batch_size : Z;
  max_eval_samples : option Z;
  streaming : bool
}.

(** A node of the file system: a directory, an audio file with the data
    and the sample rate it was written with, or a file of text. *)
Inductive Node :=
| Dir
| AudioFile (data : list Q) (samplerate : Z)
| TextFile (lines : list string).

(** What [print] receives. *)
Inductive PyVal :=
| PStr (s : string)
| PNum (q : Q).

(** The steps of a run that can be observed, in program order: the calls
    to the libraries and to [print], and the call of [sorted], the one stage
    the script computes itself. *)
Inductive Event :=
| Makedirs (path : string)
| RestoreFrom (model : string) (map_location : string)
| FromPretrained (model : string) (map_location : string)
| ModelEval
| ModelTo (dtype : string)
| LoadData
| Print (items : list PyVal)
| Take (n : Z)
| PrepareData
| SetDecodingStrategy (strategy : string)
| ChangeDecodingStrategy
| SoundfileWrite (path : string) (data : list Q) (samplerate : Z)
| SortedCall (keys : list Q) (rev : bool)
| Time (t : Q)
| AutocastEnter
| InferenceModeEnter
| Transcribe (paths : list string) (bs : Z)
| InferenceModeExit
| AutocastExit
| Normalizer (s : string)
| WriteManifest (references predictions : list string)
    (model dpath dname dsplit : string) (audio_length : list Q)
| WerCompute (references predictions : list string).

Record World := { fs : gmap string Node; trace : list Event }.

Inductive Exn := IndexError | ZeroDivisionError | ArrowInvalid.

Inductive Result (A : Type) :=
| Ok (a : A) (w : World)
| Raise (e : Exn) (w : World).
Arguments Ok {A} a w.
Arguments Raise {A} e w.

(** The collaborators the script calls but does not implement.  The
    manifest writer is two functions of its arguments: [write_manifest] is
    the path it returns and [manifest_fs] the file system it leaves, given
    the one it finds. *)
Record Env := {
  getcwd : string;
  abspath : string → string;
  makedirs : gmap string Node → string → gmap string Node;
  load_data : Args → list Sample;
  prepare_data : list Sample → list Sample;
  np_float32 : list Q → list Q;
  transcribe : gmap string Node → list string → Z → list string;
  normalizer : string → string;
  write_manifest :
    list string → list string → string → string → string → string →
    list Q → string;
  manifest_fs :
    gmap string Node → list string → list string → string → string →
    string → string → list Q → gmap string Node;
  wer_compute : list string → list string → Q;
  clock : list Event → Q
}.

(** ** The monad *)

Definition M (A : Type) : Type := World → Result A.

#[global] Instance M_ret : MRet M := λ A a w, Ok a w.
#[global] Instance M_bind : MBind M := λ A B f m w,
  match m w with
  | Ok a w' => f a w'
  | Raise e w' => Raise e w'
  end.

Definition raise {A} (e : Exn) : M A := λ w, Raise e w.

Definition emit (e : Event) : M unit :=
  λ w, Ok tt {| fs := fs w; trace := trace w ++ [e] |}.

Definition get_fs : M (gmap string Node) := λ w, Ok (fs w) w.

Definition put_fs (f : gmap string Node) : M unit :=
  λ w, Ok tt {| fs := f; trace := trace w |}.

Definition get_trace : M (list Event) := λ w, Ok (trace w) w.

(** A subscript [l[i]] with [0 <= i]: [IndexError] out of range. *)
Definition subscript {A} (l : list A) (i : nat) : M A :=
  match l !! i with
  | Some x => mret x
  | None => raise IndexError
  end.

(** [[f(x) for x in l]] *)
Fixpoint comprehension {A B} (f : A → M B) (l : list A) : M (list B) :=
  match l with
  | [] => mret []
  | x :: l' => y ← f x; ys ← comprehension f l'; mret (y :: ys)
  end.

(** ** Library functions with a fixed meaning *)

(** [str.endswith] *)
Definition endswith (s suffix : string) : bool :=
  String.prefix (String.rev suffix) (String.rev s).

(** [str.startswith] *)
Definition startswith (s pre : string) : bool := String.prefix pre s.

(** [posixpath.join(a, b)] *)
Definition os_path_join (a b : string) : string :=
  if startswith b "/" then b
  else if (String.eqb a "" || endswith a "/")%bool then a +:+ b
  else a +:+ "/" +:+ b.

(** [os.path.exists] *)
Definition os_path_exists (p : string) : M bool :=
  f ← get_fs; mret (bool_decide (is_Some (f !! p))).

(** [len(a) / 16_000] on an array of [len] elements. *)
Definition true_div (n : nat) (d : positive) : Q := Z.of_nat n # d.

(** [a < b] on floats. *)
Definition Qltb (a b : Q) : bool := negb (Qle_bool b a).

(** [sum(l)]: a left fold from [0]. *)
Definition py_sum (l : list Q) : Q := fold_left Qplus l 0%Q.

(** [round(x, 2)] on the exact value of [x]: to the nearest multiple of
    1/100, ties to the even one. *)
Definition round_half_even (x : Q) : Z :=
  let f := Qfloor x in
  let r := (x - inject_Z f)%Q in
  match (r ?= 1 # 2)%Q with
  | Lt => f
  | Gt => f + 1
  | Eq => if Z.even f then f else f + 1
  end.

Definition round2 (x : Q) : Q := round_half_even (x * 100)%Q # 100.

(** ** [sorted(l, key=..., reverse=...)]

    As [list.sort] does it: the keys are computed first, one call per
    element; with [reverse] the list is reversed before and after the sort;
    the sort is stable and compares keys with [<] only. *)

Section Sorted.
Context {A : Type}.

Fixpoint insert_keyed (x : Q * A) (l : list (Q * A)) : list (Q * A) :=
  match l with
  | [] => [x]
  | y :: l' =>
      if Qltb y.1 x.1 then y :: insert_keyed x l' else x :: y :: l'
  end.

Definition sort_keyed (l : list (Q * A)) : list (Q * A) :=
  foldr insert_keyed [] l.

Definition sort_decorated (rev : bool) (kl : list (Q * A)) : list (Q * A) :=
  let kl := if rev then reverse kl else kl in
  let kl := sort_keyed kl in
  if rev then reverse kl else kl.

Definition sorted (l : list A) (key : A → M Q) (rev : bool) : M (list A) :=
  keys ← comprehension key l;
  emit (SortedCall keys rev);;
  mret (sort_decorated rev (zip keys l)).*2.
End Sorted.

(** ** The dataset, in batches *)

(** The columns of a batch handed to the mapped function. *)
Record Batch := {
  b_id : list string;
  b_audio : list Audio;
  b_norm_text : list string
}.

(** The columns it hands back: the batch with three columns added. *)
Record OutBatch := {
  o_id : list string;
  o_audio : list Audio;
  o_norm_text : list string;
  o_references : list string;
  o_audio_filepaths : list string;
  o_durations : list Q
}.

(** A row of the mapped dataset, the ["audio"] column removed. *)
Record Row := {
  r_id : string;
  r_norm_text : string;
  r_references : string;
  r_audio_filepaths : string;
  r_durations : Q
}.

(** The dictionary [all_data]. *)
Record AllData := {
  audio_filepaths : list string;
  durations : list Q;
  references : list string
}.

Definition batch_of (rows : list Sample) : Batch :=
  {| b_id := s_id <$> rows;
     b_audio := s_audio <$> rows;
     b_norm_text := s_norm_text <$> rows |}.

Fixpoint zip_rows (ids norms refs paths : list string) (durs : list Q)
  : list Row :=
  match ids, norms, refs, paths, durs with
  | i :: ids, n :: norms, r :: refs, p :: paths, d :: durs =>
      {| r_id := i; r_norm_text := n; r_references := r;
         r_audio_filepaths := p; r_durations := d |}
      :: zip_rows ids norms refs paths durs
  | _, _, _, _, _ => []
  end.

(** The rows of a returned batch; columns of different lengths are
    refused by the dataset library. *)
Definition rows_of (remove_audio : bool) (o : OutBatch) : M (list Row) :=
  let n := length (o_id o) in
  if (bool_decide (length (o_norm_text o) = n)
      && bool_decide (length (o_references o) = n)
      && bool_decide (length (o_audio_filepaths o) = n)
      && bool_decide (length (o_durations o) = n)
      && (remove_audio || bool_decide (length (o_audio o) = n)))%bool
  then mret (zip_rows (o_id o) (o_norm_text o) (o_references o)
               (o_audio_filepaths o) (o_durations o))
  else raise ArrowInvalid.

(** The batches of [n] rows; [fuel] bounds their number. *)
Fixpoint chunks {A} (fuel n : nat) (l : list A) : list (list A) :=
  match fuel, l with
  | S fuel', _ :: _ => take n l :: chunks fuel' n (drop n l)
  | _, _ => []
  end.

(** A batch size of zero or less makes one batch of the whole dataset. *)
Definition batches {A} (bs : Z) (l : list A) : list (list A) :=
  if bool_decide (bs ≤ 0)%Z then (match l with [] => [] | _ => [l] end)
  else chunks (length l) (Z.to_nat bs) l.

(** [dataset.map(f, batch_size=bs, batched=True, remove_columns=["audio"])] *)
Definition dataset_map (f : Batch → M OutBatch) (bs : Z) (ds : list Sample)
  : M (list Row) :=
  rows ← comprehension (λ chunk, o ← f (batch_of chunk); rows_of true o)
            (batches bs ds);
  mret (concat rows).

(** ** The script *)

Section Script.
Context (E : Env).

(** [soundfile.write(path, data, samplerate)], when it returns: the file is
    created or replaced. *)
Definition soundfile_write (path : string) (data : list Q) (samplerate : Z)
  : M unit :=
  emit (SoundfileWrite path data samplerate);;
  f ← get_fs;
  put_fs (<[path := AudioFile data samplerate]> f).

(** [os.makedirs] *)
Definition os_makedirs (path : string) : M unit :=
  emit (Makedirs path);;
  f ← get_fs;
  put_fs (makedirs E f path).

(** [time.time()] *)
Definition time_time : M Q :=
  tr ← get_trace;
  emit (Time (clock E tr));;
  mret (clock E tr).

(** [CACHE_DIR], lines 22 to 25. *)
Definition CACHE_DIR (args : Args) : string :=
  let DATA_CACHE_DIR := os_path_join (getcwd E) "audio_cache" in
  let DATASET_NAME := dataset args in
  os_path_join DATA_CACHE_DIR DATASET_NAME.

(** The argument of [torch.device], lines 29 to 32. *)
Definition select_device (args : Args) : string :=
  if (device args >=? 0)%Z
  then "cuda:" +:+ pretty (device args)
  else "cpu".

(** One turn of the loop of [download_audio_files], lines 51 to 55. *)
Definition download_step (cache_dir : string) (acc : list string * list Q)
    (item : string * Audio) : M (list string * list Q) :=
  let '(audio_paths, durs) := acc in
  let '(id, sample) := item in
  let audio_path := os_path_join cache_dir (id +:+ ".wav") in
  ex ← os_path_exists audio_path;
  (if negb ex
   then soundfile_write audio_path (np_float32 E (array sample)) 16000
   else mret tt);;
  mret (audio_paths ++ [audio_path],
        durs ++ [true_div (length (array sample)) 16000]).

(** [for id, sample in zip(...)]: the loop, lines 49 to 55. *)
Fixpoint download_loop (cache_dir : string) (items : list (string * Audio))
    (acc : list string * list Q) : M (list string * list Q) :=
  match items with
  | [] => mret acc
  | item :: items' =>
      acc' ← download_step cache_dir acc item;
      download_loop cache_dir items' acc'
  end.

(** [download_audio_files], lines 43 to 62. *)
Definition download_audio_files (cache_dir : string) (batch : Batch)
  : M OutBatch :=
  '(audio_paths, durs) ←
     download_loop cache_dir (zip (b_id batch) (b_audio batch)) ([], []);
  mret {| o_id := b_id batch;
          o_audio := b_audio batch;
          o_norm_text := b_norm_text batch;
          o_references := b_norm_text batch;
          o_audio_filepaths := audio_paths;
          o_durations := durs |}.

(** Lines 65 to 67.  [dataset.take(n)] yields the first [n] rows, or all of
    them when there are fewer, as it does on a dataset that is streamed; on
    one that is not, the library raises when [n] exceeds the size, which is
    not part of this model. *)
Definition subsample (args : Args) (ds : list Sample) : M (list Sample) :=
  match max_eval_samples args with
  | Some n =>
      if (n >? 0)%Z then
        emit (Print [PStr ("Subsampling dataset to first " +:+ pretty n
                           +:+ " samples !")]);;
        emit (Take n);;
        mret (take (Z.to_nat n) ds)
      else mret ds
  | None => mret ds
  end.

(** Lines 79 to 89. *)
Definition collect (rows : list Row) : AllData :=
  fold_left
    (λ all_data data,
       {| audio_filepaths :=
            audio_filepaths all_data ++ [r_audio_filepaths data];
          durations := durations all_data ++ [r_durations data];
          references := references all_data ++ [r_references data] |})
    rows {| audio_filepaths := []; durations := []; references := [] |}.

(** Lines 92 to 95. *)
Definition sort_by_duration (all_data : AllData) : M AllData :=
  sorted_indices ←
    sorted (seq 0 (length (durations all_data)))
           (λ k, subscript (durations all_data) k) true;
  paths ← comprehension (λ i, subscript (audio_filepaths all_data) i)
             sorted_indices;
  refs ← comprehension (λ i, subscript (references all_data) i)
            sorted_indices;
  durs ← comprehension (λ i, subscript (durations all_data) i)
            sorted_indices;
  mret {| audio_filepaths := paths; durations := durs; references := refs |}.

(** Lines 98 to 104; the result is [(transcriptions, total_time)]. *)
Definition timed_transcribe (args : Args) (paths : list string)
  : M (list string * Q) :=
  start_time ← time_time;
  emit AutocastEnter;;
  emit InferenceModeEnter;;
  f ← get_fs;
  emit (Transcribe paths (batch_size args));;
  let transcriptions := transcribe E f paths (batch_size args) in
  emit InferenceModeExit;;
  emit AutocastExit;;
  end_time ← time_time;
  mret (transcriptions, (end_time - start_time)%Q).

(** Lines 22 to 95 of [main]: from the cache directory to the sorted
    [all_data]. *)
Definition load_and_sort (args : Args) : M AllData :=
  let cache_dir := CACHE_DIR args in
  ex ← os_path_exists cache_dir;
  (if negb ex then os_makedirs cache_dir else mret tt);;
  let dev := select_device args in
  (if endswith (model_id args) ".nemo"
   then emit (RestoreFrom (model_id args) dev)
   else emit (FromPretrained (model_id args) dev));;
  emit ModelEval;;
  emit (ModelTo "bfloat16");;
  emit LoadData;;
  let ds := load_data E args in
  ds ← subsample args ds;
  emit PrepareData;;
  let ds := prepare_data E ds in
  emit (SetDecodingStrategy "greedy_batched");;
  emit ChangeDecodingStrategy;;
  rows ← dataset_map (download_audio_files cache_dir) (batch_size args) ds;
  let all_data := collect rows in
  sort_by_duration all_data.

(** Lines 98 to 132 of [main]: inference, normalisation, manifest, scores. *)
Definition score_and_report (args : Args) (all_data : AllData) : M unit :=
  '(transcriptions, total_time) ←
     timed_transcribe args (audio_filepaths all_data);
  predictions ←
    comprehension (λ pred, emit (Normalizer pred);; mret (normalizer E pred))
      transcriptions;
  emit (WriteManifest (references all_data) predictions (model_id args)
          (dataset_path args) (dataset args) (split args)
          (durations all_data));;
  f ← get_fs;
  put_fs (manifest_fs E f (references all_data) predictions (model_id args)
            (dataset_path args) (dataset args) (split args)
            (durations all_data));;
  let manifest_path :=
    write_manifest E (references all_data) predictions (model_id args)
      (dataset_path args) (dataset args) (split args) (durations all_data) in
  emit (Print [PStr "Results saved at path:";
               PStr (abspath E manifest_path)]);;
  emit (WerCompute (references all_data) predictions);;
  let wer := wer_compute E (references all_data) predictions in
  let wer := round2 (100 * wer)%Q in
  let audio_length := py_sum (durations all_data) in
  (if Qeq_bool total_time 0 then raise ZeroDivisionError else mret tt);;
  let rtfx := (audio_length / total_time)%Q in
  let rtfx := round2 rtfx in
  emit (Print [PStr "RTFX:"; PNum rtfx]);;
  emit (Print [PStr "WER:"; PNum wer; PStr "%"]).

(** [main], lines 20 to 132. *)
Definition main (args : Args) : M unit :=
  all_data ← load_and_sort args;
  score_and_report args all_data.

End Script.

(** ** A concrete run *)

Definition demo_args : Args :=
  {| model_id := "nvidia/parakeet-ctc-0.6b";
     dataset_path := "esb/datasets";
     dataset := "librispeech";
     split := "test";
     device := -1;
     batch_size := 2;
     max_eval_samples := None;
     streaming := true |}.

Definition demo_samples : list Sample :=
  [ {| s_id := "a"; s_audio := {| array := [0; 0]%Q; sampling_rate := 8000 |};
       s_norm_text := "one" |};
    {| s_id := "b"; s_audio := {| array := [0; 0; 0]%Q; sampling_rate := 16000 |};
       s_norm_text := "two" |};
    {| s_id := "c"; s_audio := {| array := [0]%Q; sampling_rate := 16000 |};
       s_norm_text := "three" |} ].

Definition demo_env : Env :=
  {| getcwd := "/work";
     abspath := λ p, "/work/" +:+ p;
     makedirs := λ f p, <[p := Dir]> f;
     load_data := λ _, demo_samples;
     prepare_data := λ ds, ds;
     np_float32 := λ a, a;
     transcribe := λ _ paths _, (λ p, "T " +:+ p) <$> paths;
     normalizer := λ s, "n " +:+ s;
     write_manifest := λ _ _ _ _ _ _ _, "results/manifest.jsonl";
     manifest_fs := λ f refs preds _ _ _ _ _,
       <["/work/results/manifest.jsonl"
           := TextFile (zip_with (λ r p, r +:+ " | " +:+ p) refs preds)]> f;
     wer_compute := λ _ _, (1 # 8)%Q;
     clock := λ tr, inject_Z (Z.of_nat (length tr)) |}.

Definition demo_world : World := {| fs := ∅; trace := [] |}.

Definition trace_of {A} (r : Result A) : list Event :=
  match r with Ok _ w => trace w | Raise _ w => trace w end.

(** ** The command line, lines 135 to 181

    The options as [argparse] recognises them on a command line, in the
    order they are given and with their values converted; how a list of
    words is split into options is left to the library. *)
Inductive CliOption :=
| OptModelId (s : string)
| OptDatasetPath (s : string)
| OptDataset (s : string)
| OptSplit (s : string)
| OptDevice (n : Z)
| OptBatchSize (n : Z)
| OptMaxEvalSamples (n : Z)
| OptNoStreaming.

(** The namespace while it is filled; the two required options have no
    default. *)
Record Namespace := {
  ns_model_id : option string;
  ns_dataset_path : string;
  ns_dataset : option string;
  ns_split : string;
  ns_device : Z;
  ns_batch_size : Z;
  ns_max_eval_samples : option Z;
  ns_streaming : bool
}.

(** The defaults of the eight [add_argument] calls. *)
Definition defaults : Namespace :=
  {| ns_model_id := None;
     ns_dataset_path := "esb/datasets";
     ns_dataset := None;
     ns_split := "test";
     ns_device := -1;
     ns_batch_size := 32;
     ns_max_eval_samples := None;
     ns_streaming := true |}.

(** An option stores its value; [--no-streaming] stores [False]. *)
Definition store (ns : Namespace) (o : CliOption) : Namespace :=
  match o with
  | OptModelId s =>
      {| ns_model_id := Some s; ns_dataset_path := ns_dataset_path ns;
         ns_dataset := ns_dataset ns; ns_split := ns_split ns;
         ns_device := ns_device ns; ns_batch_size := ns_batch_size ns;
         ns_max_eval_samples := ns_max_eval_samples ns;
         ns_streaming := ns_streaming ns |}
  | OptDatasetPath s =>
      {| ns_model_id := ns_model_id ns; ns_dataset_path := s;
         ns_dataset := ns_dataset ns; ns_split := ns_split ns;
         ns_device := ns_device ns; ns_batch_size := ns_batch_size ns;
         ns_max_eval_samples := ns_max_eval_samples ns;
         ns_streaming := ns_streaming ns |}
  | OptDataset s =>
      {| ns_model_id := ns_model_id ns;
         ns_dataset_path := ns_dataset_path ns;
         ns_dataset := Some s; ns_split := ns_split ns;
         ns_device := ns_device ns; ns_batch_size := ns_batch_size ns;
         ns_max_eval_samples := ns_max_eval_samples ns;
         ns_streaming := ns_streaming ns |}
  | OptSplit s =>
      {| ns_model_id := ns_model_id ns;
         ns_dataset_path := ns_dataset_path ns;
         ns_dataset := ns_dataset ns; ns_split := s;
         ns_device := ns_device ns; ns_batch_size := ns_batch_size ns;
         ns_max_eval_samples := ns_max_eval_samples ns;
         ns_streaming := ns_streaming ns |}
  | OptDevice n =>
      {| ns_model_id := ns_model_id ns;
         ns_dataset_path := ns_dataset_path ns;
         ns_dataset := ns_dataset ns; ns_split := ns_split ns;
         ns_device := n; ns_batch_size := ns_batch_size ns;
         ns_max_eval_samples := ns_max_eval_samples ns;
         ns_streaming := ns_streaming ns |}
  | OptBatchSize n =>
      {| ns_model_id := ns_model_id ns;
         ns_dataset_path := ns_dataset_path ns;
         ns_dataset := ns_dataset ns; ns_split := ns_split ns;
         ns_device := ns_device ns; ns_batch_size := n;
         ns_max_eval_samples := ns_max_eval_samples ns;
         ns_streaming := ns_streaming ns |}
  | OptMaxEvalSamples n =>
      {| ns_model_id := ns_model_id ns;
         ns_dataset_path := ns_dataset_path ns;
         ns_dataset := ns_dataset ns; ns_split := ns_split ns;
         ns_device := ns_device ns; ns_batch_size := ns_batch_size ns;
         ns_max_eval_samples := Some n;
         ns_streaming := ns_streaming ns |}
  | OptNoStreaming =>
      {| ns_model_id := ns_model_id ns;
         ns_dataset_path := ns_dataset_path ns;
         ns_dataset := ns_dataset ns; ns_split := ns_split ns;
         ns_device := ns_device ns; ns_batch_size := ns_batch_size ns;
         ns_max_eval_samples := ns_max_eval_samples ns;
         ns_streaming := false |}
  end.

(** [parser.parse_args()]: [None] when a required option is missing, in
    which case the parser exits; [parser.set_defaults], called after it,
    does not reach the namespace already built. *)
Definition parse_args (opts : list CliOption) : option Args :=
  let ns := fold_left store opts defaults in
  match ns_model_id ns, ns_dataset ns with
  | Some m, Some d =>
      Some {| model_id := m; dataset_path := ns_dataset_path ns;
              dataset := d; split := ns_split ns; device := ns_device ns;
              batch_size := ns_batch_size ns;
              max_eval_samples := ns_max_eval_samples ns;
              streaming := ns_streaming ns |}
  | _, _ => None
  end.

(** Lines 178 to 181: [main] runs on the namespace, if there is one. *)
Definition script (E : Env) (opts : list CliOption) (w : World)
  : option (Result unit) :=
  match parse_args opts with
  | Some args => Some (main E args w)
  | None => None
  end.

Definition is_opt_model_id (o : CliOption) : Prop :=
  match o with OptModelId _ => True | _ => False end.

Definition is_opt_dataset (o : CliOption) : Prop :=
  match o with OptDataset _ => True | _ => False end.

Definition is_opt_device (o : CliOption) : Prop :=
  match o with OptDevice _ => True | _ => False end.

Definition is_opt_batch_size (o : CliOption) : Prop :=
  match o with OptBatchSize _ => True | _ => False end.

Definition is_opt_max_eval_samples (o : CliOption) : Prop :=
  match o with OptMaxEvalSamples _ => True | _ => False end.

(** ** Vocabulary of the statements *)

(** The cache path of a sample, line 51. *)
Definition audio_path_of (cache_dir id : string) : string :=
  os_path_join cache_dir (id +:+ ".wav").

(** The recorded duration of a sample, line 55. *)
Definition duration_of (a : Audio) : Q := true_div (length (array a)) 16000.

(** The world after one turn of the loop of [download_audio_files]. *)
Definition cache_step (E : Env) (cache_dir : string) (w : World)
    (item : string * Audio) : World :=
  let p := audio_path_of cache_dir item.1 in
  match fs w !! p with
  | Some _ => w
  | None =>
      {| fs := <[p := AudioFile (np_float32 E (array item.2)) 16000]> (fs w);
         trace := trace w ++
                    [SoundfileWrite p (np_float32 E (array item.2)) 16000] |}
  end.

(** The events a run added to the trace it started from. *)
Definition new_events {A} (w : World) (r : Result A) : list Event :=
  drop (length (trace w)) (trace_of r).

(** What the loop reads of a sample: its id and its audio. *)
Definition item_of (s : Sample) : string * Audio := (s_id s, s_audio s).

(** The row the mapped dataset holds for a sample. *)
Definition row_of (cache_dir : string) (s : Sample) : Row :=
  {| r_id := s_id s;
     r_norm_text := s_norm_text s;
     r_references := s_norm_text s;
     r_audio_filepaths := audio_path_of cache_dir (s_id s);
     r_durations := duration_of (s_audio s) |}.

(** The dataset after lines 65 to 69: subsampled, then prepared. *)
Definition eval_dataset (E : Env) (args : Args) : list Sample :=
  prepare_data E
    match max_eval_samples args with
    | Some n =>
        if (n >? 0)%Z then take (Z.to_nat n) (load_data E args)
        else load_data E args
    | None => load_data E args
    end.

(** The samples in the order of [sorted_indices]. *)
Definition sort_samples (ds : list Sample) : list Sample :=
  (sort_decorated true (zip (duration_of ∘ s_audio <$> ds) ds)).*2.

(** The world after lines 26 and 27. *)
Definition made_dirs (E : Env) (args : Args) (w : World) : World :=
  match fs w !! CACHE_DIR E args with
  | Some _ => w
  | None => {| fs := makedirs E (fs w) (CACHE_DIR E args);
               trace := trace w ++ [Makedirs (CACHE_DIR E args)] |}
  end.

(** The call that loads the model, lines 34 to 37. *)
Definition load_model_event (args : Args) : Event :=
  if endswith (model_id args) ".nemo"
  then RestoreFrom (model_id args) (select_device args)
  else FromPretrained (model_id args) (select_device args).

(** The calls of lines 65 to 67. *)
Definition subsample_events (args : Args) : list Event :=
  match max_eval_samples args with
  | Some n =>
      if (n >? 0)%Z
      then [Print [PStr ("Subsampling dataset to first " +:+ pretty n
                         +:+ " samples !")]; Take n]
      else []
  | None => []
  end.

(** The calls of lines 34 to 71, in order. *)
Definition setup_events (args : Args) : list Event :=
  [load_model_event args; ModelEval; ModelTo "bfloat16"; LoadData]
  ++ subsample_events args
  ++ [PrepareData; SetDecodingStrategy "greedy_batched";
      ChangeDecodingStrategy].

(** The world when the caching of the audio starts, line 75. *)
Definition setup_world (E : Env) (args : Args) (w : World) : World :=
  {| fs := fs (made_dirs E args w);
     trace := trace (made_dirs E args w) ++ setup_events args |}.

(** The world when the caching is over. *)
Definition cached_world (E : Env) (args : Args) (w : World) : World :=
  fold_left (cache_step E (CACHE_DIR E args))
    (item_of <$> eval_dataset E args) (setup_world E args w).

(** The world when the sort is over, line 95. *)
Definition sorted_world (E : Env) (args : Args) (w : World) : World :=
  {| fs := fs (cached_world E args w);
     trace := trace (cached_world E args w)
              ++ [SortedCall (duration_of ∘ s_audio <$> eval_dataset E args)
                    true] |}.

(** [all_data] after the sort, lines 92 to 95. *)
Definition sorted_data (E : Env) (args : Args) : AllData :=
  let ss := sort_samples (eval_dataset E args) in
  {| audio_filepaths := audio_path_of (CACHE_DIR E args) ∘ s_id <$> ss;
     durations := duration_of ∘ s_audio <$> ss;
     references := s_norm_text <$> ss |}.

(** The five calls between the two readings of the clock, lines 99 to
    101. *)
Definition transcribe_call (args : Args) (all_data : AllData) : list Event :=
  [AutocastEnter; InferenceModeEnter;
   Transcribe (audio_filepaths all_data) (batch_size args);
   InferenceModeExit; AutocastExit].

(** [start_time] and [end_time], lines 98 and 102, on entering
    [score_and_report] in world [w]. *)
Definition start_time_of (E : Env) (w : World) : Q := clock E (trace w).

Definition end_time_of (E : Env) (args : Args) (all_data : AllData)
    (w : World) : Q :=
  clock E (trace w ++ Time (start_time_of E w)
                      :: transcribe_call args all_data).

(** [transcriptions] and [predictions], lines 101 and 107. *)
Definition transcriptions_of (E : Env) (args : Args) (all_data : AllData)
    (w : World) : list string :=
  transcribe E (fs w) (audio_filepaths all_data) (batch_size args).

Definition predictions_of (E : Env) (args : Args) (all_data : AllData)
    (w : World) : list string :=
  normalizer E <$> transcriptions_of E args all_data w.

(** The file system the manifest writer leaves, line 119. *)
Definition fs_after_manifest (E : Env) (args : Args) (all_data : AllData)
    (w : World) : gmap string Node :=
  manifest_fs E (fs w) (references all_data)
    (predictions_of E args all_data w) (model_id args) (dataset_path args)
    (dataset args) (split args) (durations all_data).

(** The events of lines 98 to 123. *)
Definition report_events (E : Env) (args : Args) (all_data : AllData)
    (w : World) : list Event :=
  Time (start_time_of E w) :: transcribe_call args all_data
  ++ [Time (end_time_of E args all_data w)]
  ++ (Normalizer <$> transcriptions_of E args all_data w)
  ++ [WriteManifest (references all_data) (predictions_of E args all_data w)
        (model_id args) (dataset_path args) (dataset args) (split args)
        (durations all_data);
      Print [PStr "Results saved at path:";
             PStr (abspath E
                     (write_manifest E (references all_data)
                        (predictions_of E args all_data w) (model_id args)
                        (dataset_path args) (dataset args) (split args)
                        (durations all_data)))];
      WerCompute (references all_data) (predictions_of E args all_data w)].

(** The two numbers printed, lines 124 to 129. *)
Definition wer_of (E : Env) (args : Args) (all_data : AllData) (w : World)
  : Q :=
  round2 (100 * wer_compute E (references all_data)
                  (predictions_of E args all_data w))%Q.

Definition rtfx_of (E : Env) (args : Args) (all_data : AllData) (w : World)
  : Q :=
  round2 (py_sum (durations all_data)
          / (end_time_of E args all_data w - start_time_of E w))%Q.

(** The two last calls, lines 131 and 132. *)
Definition result_prints (E : Env) (args : Args) (all_data : AllData)
    (w : World) : list Event :=
  [Print [PStr "RTFX:"; PNum (rtfx_of E args all_data w)];
   Print [PStr "WER:"; PNum (wer_of E args all_data w); PStr "%"]].

(** The call of line 27, when it is made. *)
Definition dir_events (E : Env) (args : Args) (w : World) : list Event :=
  match fs w !! CACHE_DIR E args with
  | Some _ => []
  | None => [Makedirs (CACHE_DIR E args)]
  end.

(** The calls of [soundfile.write] of the whole run. *)
Definition write_events (E : Env) (args : Args) (w : World) : list Event :=
  drop (length (trace (setup_world E args w)))
       (trace (cached_world E args w)).

(** The events of lines 22 to 95. *)
Definition prep_events (E : Env) (args : Args) (w : World) : list Event :=
  dir_events E args w ++ setup_events args ++ write_events E args w
  ++ [SortedCall (duration_of ∘ s_audio <$> eval_dataset E args) true].

(** [total_time], line 104, of the run of [main] from [w]. *)
Definition total_time_of (E : Env) (args : Args) (w : World) : Q :=
  (end_time_of E args (sorted_data E args) (sorted_world E args w)
   - start_time_of E (sorted_world E args w))%Q.

(** The events of a whole run of [main] from [w]. *)
Definition run_events (E : Env) (args : Args) (w : World) : list Event :=
  prep_events E args w
  ++ report_events E args (sorted_data E args) (sorted_world E args w)
  ++ (if Qeq_bool (total_time_of E args w) 0 then []
      else result_prints E args (sorted_data E args)
             (sorted_world E args w)).

(** Kinds of events. *)
Definition is_transcribe (e : Event) : Prop :=
  match e with Transcribe _ _ => True | _ => False end.

Definition is_wer_compute (e : Event) : Prop :=
  match e with WerCompute _ _ => True | _ => False end.

Definition is_write_manifest (e : Event) : Prop :=
  match e with WriteManifest _ _ _ _ _ _ _ => True | _ => False end.

Definition is_take (e : Event) : Prop :=
  match e with Take _ => True | _ => False end.

(** A [print] of a number: the two result lines, and no other line. *)
Definition is_result_print (e : Event) : Prop :=
  match e with Print (_ :: PNum _ :: _) => True | _ => False end.

(** The events of the caching loop: writes at 16 kHz, nothing else. *)
Definition write_16k (e : Event) : Prop :=
  match e with
  | SoundfileWrite _ _ samplerate => samplerate = 16000
  | _ => False
  end.

(** The series of texts a call of the manifest writer receives. *)
Definition manifest_series (e : Event) : list (list string) :=
  match e with
  | WriteManifest refs preds _ _ _ _ _ => [refs; preds]
  | _ => []
  end.

(** Some call of the manifest writer in [tr] receives the series [paths]. *)
Definition manifest_receives (tr : list Event) (paths : list string) : Prop :=
  Exists (λ e, paths ∈ manifest_series e) tr.

(** The stages of the evaluation. *)
Inductive Stage :=
| Load | Materialize | Sort | Infer | Normalize | Score | Manifest | Report.

#[global] Instance Stage_eq_dec : EqDecision Stage.
Proof. solve_decision. Defined.

(** The stage an event belongs to; the events of the set-up, the clock and
    the two informative prints belong to none. *)
Definition stage_of (e : Event) : option Stage :=
  match e with
  | LoadData => Some Load
  | SoundfileWrite _ _ _ => Some Materialize
  | SortedCall _ _ => Some Sort
  | Transcribe _ _ => Some Infer
  | Normalizer _ => Some Normalize
  | WerCompute _ _ => Some Score
  | WriteManifest _ _ _ _ _ _ _ => Some Manifest
  | Print (_ :: PNum _ :: _) => Some Report
  | _ => None
  end.

(** The place of a stage in an order of stages. *)
Fixpoint position (order : list Stage) (s : Stage) : option nat :=
  match order with
  | [] => None
  | t :: order' =>
      if decide (t = s) then Some 0%nat else S <$> position order' s
  end.

(** The places, in [order], of the stages of the events of a trace. *)
Definition stage_ranks (order : list Stage) (tr : list Event) : list nat :=
  omap (λ e, stage_of e ≫= position order) tr.

(** The trace runs through the stages in the given order: no event of a
    stage comes after an event of a later stage. *)
Definition follows_order (order : list Stage) (tr : list Event) : Prop :=
  StronglySorted le (stage_ranks order tr).

(** The order the specification gives, and the order of the script. *)
Definition spec_order : list Stage :=
  [Load; Materialize; Sort; Infer; Normalize; Score; Manifest; Report].

Definition code_order : list Stage :=
  [Load; Materialize; Sort; Infer; Normalize; Manifest; Score; Report].

(** The world a run ends in. *)
Definition world_of {A} (r : Result A) : World :=
  match r with Ok _ w => w | Raise _ w => w end.

(** Arguments that ask for the second GPU and for two samples. *)
Definition gpu_args : Args :=
  {| model_id := "model.nemo";
     dataset_path := "esb/datasets";
     dataset := "librispeech";
     split := "test";
     device := 1;
     batch_size := 32;
     max_eval_samples := Some 2;
     streaming := true |}.

(** Arguments that ask for no sample at all. *)
Definition zero_args : Args :=
  {| model_id := "model.nemo";
     dataset_path := "esb/datasets";
     dataset := "librispeech";
     split := "test";
     device := 0;
     batch_size := 32;
     max_eval_samples := Some 0;
     streaming := true |}.

(** The order on decorated elements: by key. *)
Definition key_le {A} (x y : Q * A) : Prop := (x.1 <= y.1)%Q.

(** Two decorated elements with the same key and related payloads. *)
Definition keyed_rel {A B} (R : A → B → Prop) (x : Q * A) (y : Q * B)
  : Prop :=
  x.1 = y.1 ∧ R x.2 y.2.

(** [b] is not longer than [a]. *)
Definition not_longer (a b : Sample) : Prop :=
  (duration_of (s_audio b) <= duration_of (s_audio a))%Q.

(** A sorted list of ranks between two bounds. *)
Definition between (a b : nat) (l : list nat) : Prop :=
  StronglySorted le l ∧ Forall (λ x, a ≤ x ≤ b)%nat l.

(** A batch on which the loop meets a fresh path, then the same path. *)
Definition demo_batch : Batch :=
  {| b_id := ["a"; "a"];
     b_audio := [ {| array := [1; 2]%Q; sampling_rate := 8000 |};
                  {| array := [3]%Q; sampling_rate := 44100 |} ];
     b_norm_text := ["one"; "two"] |}.

(** The paths a list of events writes audio to, in order. *)
Definition written_paths (evs : list Event) : list string :=
  omap (λ e, match e with SoundfileWrite p _ _ => Some p | _ => None end) evs.

(** The two calls that load a model. *)
Definition is_model_load (e : Event) : Prop :=
  match e with
  | RestoreFrom _ _ | FromPretrained _ _ => True
  | _ => False
  end.

(** The calls that set the model up for inference. *)
Definition is_model_setup (e : Event) : Prop :=
  match e with
  | ModelEval | ModelTo _ | SetDecodingStrategy _ | ChangeDecodingStrategy =>
      True
  | _ => False
  end.

Definition is_makedirs (e : Event) : Prop :=
  match e with Makedirs _ => True | _ => False end.

(** A batch in which a later sample repeats the id of an earlier one. *)
Definition repeat_batch : Batch :=
  {| b_id := ["b"; "a"; "a"];
     b_audio := [ {| array := [9]%Q; sampling_rate := 16000 |};
                  {| array := [1; 2]%Q; sampling_rate := 16000 |};
                  {| array := [3]%Q; sampling_rate := 16000 |} ];
     b_norm_text := ["zero"; "one"; "two"] |}.

(** A world whose clock stands still, and one whose dataset is empty. *)
Definition frozen_env : Env :=
  {| getcwd := getcwd demo_env;
     abspath := abspath demo_env;
     makedirs := makedirs demo_env;
     load_data := load_data demo_env;
     prepare_data := prepare_data demo_env;
     np_float32 := np_float32 demo_env;
     transcribe := transcribe demo_env;
     normalizer := normalizer demo_env;
     write_manifest := write_manifest demo_env;
     manifest_fs := manifest_fs demo_env;
     wer_compute := wer_compute demo_env;
     clock := λ _, 0%Q |}.

Definition empty_env : Env :=
  {| getcwd := getcwd demo_env;
     abspath := abspath demo_env;
     makedirs := makedirs demo_env;
     load_data := λ _, [];
     prepare_data := prepare_data demo_env;
     np_float32 := np_float32 demo_env;
     transcribe := transcribe demo_env;
     normalizer := normalizer demo_env;
     write_manifest := write_manifest demo_env;
     manifest_fs := manifest_fs demo_env;
     wer_compute := wer_compute demo_env;
     clock := clock demo_env |}.

Definition is_soundfile_write (e : Event) : Prop :=
  match e with SoundfileWrite _ _ _ => True | _ => False end.

Definition is_normalizer (e : Event) : Prop :=
  match e with Normalizer _ => True | _ => False end.

Definition is_time (e : Event) : Prop :=
  match e with Time _ => True | _ => False end.

(** An id that holds a ["/"].  The cache path of an id without one names a
    file directly in the cache directory, and two such ids name one file
    only when they are equal. *)
Fixpoint has_slash (s : string) : bool :=
  match s with
  | EmptyString => false
  | String c s' => String.eqb (String c EmptyString) "/" || has_slash s'
  end.

(** * Properties *)

(** ** Paths *)

(** With a relative name and a directory that does not end in a slash,
    [os.path.join] puts one slash between the two. *)
Lemma os_path_join_plain (a b : string) :
  startswith b "/" = false → String.eqb a "" = false →
  endswith a "/" = false →
  os_path_join a b = a +:+ "/" +:+ b.
Proof. intros Hb Ha Ha'. unfold os_path_join. by rewrite Hb, Ha, Ha'. Qed.

(** ** The sort *)

Section SortedFacts.
Context {A : Type}.
Implicit Types (x y : Q * A) (l kl : list (Q * A)).

Lemma Qltb_true (a b : Q) : Qltb a b = true → (a <= b)%Q.
Proof.
  unfold Qltb. rewrite negb_true_iff. intros Hba.
  apply Qlt_le_weak, Qnot_le_lt. intros Hle.
  apply Qle_bool_iff in Hle. congruence.
Qed.

Lemma Qltb_false (a b : Q) : Qltb a b = false → (b <= a)%Q.
Proof.
  unfold Qltb. rewrite negb_false_iff. apply Qle_bool_iff.
Qed.

Lemma key_le_trans x y z : key_le x y → key_le y z → key_le x z.
Proof. unfold key_le. apply Qle_trans. Qed.

Lemma insert_keyed_perm x l : insert_keyed x l ≡ₚ x :: l.
Proof.
  induction l as [|y l IH]; simpl; [done|].
  destruct (Qltb y.1 x.1); [|done].
  rewrite IH. apply Permutation_swap.
Qed.

Lemma sort_keyed_perm l : sort_keyed l ≡ₚ l.
Proof.
  induction l as [|x l IH]; simpl; [done|].
  rewrite insert_keyed_perm. by rewrite IH.
Qed.

Lemma sort_decorated_perm rev kl : sort_decorated rev kl ≡ₚ kl.
Proof.
  unfold sort_decorated. destruct rev.
  - by rewrite reverse_Permutation, sort_keyed_perm, reverse_Permutation.
  - apply sort_keyed_perm.
Qed.

Lemma insert_keyed_sorted x l :
  StronglySorted key_le l → StronglySorted key_le (insert_keyed x l).
Proof.
  induction 1 as [|y l Hl IH Hy]; simpl.
  - repeat constructor.
  - destruct (Qltb y.1 x.1) eqn:Hlt.
    + constructor; [done|].
      rewrite insert_keyed_perm. constructor; [|done].
      by apply Qltb_true.
    + apply Qltb_false in Hlt.
      constructor; [by constructor|].
      constructor; [done|].
      eapply Forall_impl; [exact Hy|].
      intros z Hz. by apply key_le_trans with y.
Qed.

Lemma sort_keyed_sorted l : StronglySorted key_le (sort_keyed l).
Proof.
  induction l as [|x l IH]; simpl; [constructor|].
  by apply insert_keyed_sorted.
Qed.

Lemma StronglySorted_reverse {B} (R : relation B) (l : list B) :
  StronglySorted R l → StronglySorted (flip R) (reverse l).
Proof.
  induction 1 as [|x l Hl IH Hx]; [constructor|].
  rewrite reverse_cons. apply StronglySorted_app_2; [|done|repeat constructor].
  intros a b Ha Hb. apply list_elem_of_singleton in Hb as ->.
  rewrite elem_of_reverse in Ha. unfold flip.
  rewrite Forall_forall in Hx. by apply Hx.
Qed.

(** The sort is stable: elements with one and the same key keep the order
    they had, also with [reverse=True]. *)
Lemma insert_keyed_stable (k : Q) x l :
  filter (λ y, Qeq_bool y.1 k = true) (insert_keyed x l)
  = filter (λ y, Qeq_bool y.1 k = true) (x :: l).
Proof.
  induction l as [|y l IH]; [done|]. simpl.
  destruct (Qltb y.1 x.1) eqn:Hlt; [|done].
  rewrite filter_cons, IH, !filter_cons.
  destruct (decide (Qeq_bool y.1 k = true)) as [Hy|Hy]; [|done].
  destruct (decide (Qeq_bool x.1 k = true)) as [Hx|Hx]; [|done].
  apply Qeq_bool_iff in Hx, Hy. unfold Qltb in Hlt.
  apply negb_true_iff in Hlt.
  assert (Qle_bool x.1 y.1 = true); [|congruence].
  apply Qle_bool_iff. rewrite Hx, Hy. apply Qle_refl.
Qed.

Lemma sort_keyed_stable (k : Q) l :
  filter (λ y, Qeq_bool y.1 k = true) (sort_keyed l)
  = filter (λ y, Qeq_bool y.1 k = true) l.
Proof.
  induction l as [|x l IH]; [done|]. simpl.
  by rewrite insert_keyed_stable, !filter_cons, IH.
Qed.

Lemma sort_decorated_stable (k : Q) rev kl :
  filter (λ y, Qeq_bool y.1 k = true) (sort_decorated rev kl)
  = filter (λ y, Qeq_bool y.1 k = true) kl.
Proof.
  unfold sort_decorated. destruct rev.
  - by rewrite filter_reverse, sort_keyed_stable, filter_reverse,
      reverse_involutive.
  - apply sort_keyed_stable.
Qed.

(** With [reverse=True] the keys come out in non-increasing order. *)
Lemma sort_decorated_descending kl :
  StronglySorted (flip key_le) (sort_decorated true kl).
Proof. apply StronglySorted_reverse, sort_keyed_sorted. Qed.

End SortedFacts.

(** The sort looks at the keys only: related payloads stay related. *)
Section SortedParam.
Context {A B : Type} (R : A → B → Prop).

Lemma insert_keyed_rel x y l k :
  keyed_rel R x y → Forall2 (keyed_rel R) l k →
  Forall2 (keyed_rel R) (insert_keyed x l) (insert_keyed y k).
Proof.
  intros Hxy. induction 1 as [|a b l k Hab Hlk IH]; simpl.
  - constructor; [exact Hxy|constructor].
  - pose proof Hxy as [Hk _]. pose proof Hab as [Hk' _]. rewrite Hk, Hk'.
    destruct (Qltb b.1 y.1).
    + constructor; [exact Hab|exact IH].
    + constructor; [exact Hxy|]. constructor; [exact Hab|exact Hlk].
Qed.

Lemma sort_keyed_rel l k :
  Forall2 (keyed_rel R) l k →
  Forall2 (keyed_rel R) (sort_keyed l) (sort_keyed k).
Proof.
  induction 1; simpl; [constructor|]. by apply insert_keyed_rel.
Qed.

Lemma sort_decorated_rel rev l k :
  Forall2 (keyed_rel R) l k →
  Forall2 (keyed_rel R) (sort_decorated rev l) (sort_decorated rev k).
Proof.
  intros H. unfold sort_decorated. destruct rev.
  - by apply Forall2_reverse, sort_keyed_rel, Forall2_reverse.
  - by apply sort_keyed_rel.
Qed.

End SortedParam.

(** ** Running the monad *)

Lemma bind_run {A B} (m : M A) (f : A → M B) (w : World) :
  (m ≫= f) w =
  match m w with Ok a w' => f a w' | Raise e w' => Raise e w' end.
Proof. reflexivity. Qed.

Lemma bind_ok {A B} (m : M A) (f : A → M B) (w w' : World) (a : A) :
  m w = Ok a w' → (m ≫= f) w = f a w'.
Proof. intros H. by rewrite bind_run, H. Qed.

Lemma ret_run {A} (a : A) (w : World) : (mret a : M A) w = Ok a w.
Proof. reflexivity. Qed.

Lemma comprehension_cons {A B} (f : A → M B) (x : A) (l : list A) w :
  comprehension f (x :: l) w =
  match f x w with
  | Ok y w' =>
      match comprehension f l w' with
      | Ok ys w'' => Ok (y :: ys) w''
      | Raise e w'' => Raise e w''
      end
  | Raise e w' => Raise e w'
  end.
Proof. reflexivity. Qed.

(** A comprehension whose body cannot fail and leaves the world alone. *)
Lemma comprehension_pure {A B} (f : A → M B) (g : A → B) (l : list A) w :
  (∀ x w', f x w' = Ok (g x) w') →
  comprehension f l w = Ok (g <$> l) w.
Proof.
  intros Hf. induction l as [|x l IH]; [done|].
  by rewrite comprehension_cons, Hf, IH.
Qed.

Lemma subscript_ok {A} (l : list A) (i : nat) (x : A) w :
  l !! i = Some x → subscript l i w = Ok x w.
Proof. intros H. unfold subscript. by rewrite H. Qed.

(** Subscripts within range: the comprehension gathers the elements. *)
Lemma comprehension_subscript {A} (l : list A) (idx : list nat) (r : list A) w :
  Forall2 (λ i x, l !! i = Some x) idx r →
  comprehension (subscript l) idx w = Ok r w.
Proof.
  induction 1 as [|i x idx r Hi _ IH]; [done|].
  by rewrite comprehension_cons, (subscript_ok _ _ _ _ Hi), IH.
Qed.

Lemma Forall2_seq_lookup {A} (pre l : list A) :
  Forall2 (λ i x, (pre ++ l) !! i = Some x) (seq (length pre) (length l)) l.
Proof.
  revert pre. induction l as [|x l IH]; intros pre; simpl; [constructor|].
  constructor.
  - by rewrite list_lookup_middle.
  - replace (pre ++ x :: l) with ((pre ++ [x]) ++ l)
      by (by rewrite <- (assoc_L (++))).
    replace (S (length pre)) with (length (pre ++ [x]))
      by (rewrite length_app; simpl; lia).
    apply IH.
Qed.

Lemma Forall2_range_lookup {A} (l : list A) :
  Forall2 (λ i x, l !! i = Some x) (seq 0 (length l)) l.
Proof. apply (Forall2_seq_lookup [] l). Qed.

Lemma Forall2_zip_keyed {A B} (R : A → B → Prop) (ks : list Q) l k :
  Forall2 R l k → Forall2 (keyed_rel R) (zip ks l) (zip ks k).
Proof.
  intros H. revert ks. induction H as [|a b l k Hab _ IH]; intros [|q ks];
    simpl; try constructor; [done|apply IH].
Qed.

Lemma Forall2_keyed_snd {A B} (R : A → B → Prop) l k :
  Forall2 (keyed_rel R) l k → Forall2 R (l.*2) (k.*2).
Proof. induction 1 as [|?? ?? [_ ?]]; simpl; by constructor. Qed.

(** [sorted(range(len(l)), key=lambda k: l[k], reverse=rev)] never fails. *)
Lemma sorted_range_run (keys : list Q) (rev : bool) w :
  sorted (seq 0 (length keys)) (λ k, subscript keys k) rev w =
  Ok (sort_decorated rev (zip keys (seq 0 (length keys)))).*2
     {| fs := fs w; trace := trace w ++ [SortedCall keys rev] |}.
Proof.
  unfold sorted.
  by rewrite (bind_ok _ _ _ _ _
    (comprehension_subscript keys _ keys w (Forall2_range_lookup keys))).
Qed.

(** ** The loop of [download_audio_files] *)

Section Download.
Context (E : Env) (cache_dir : string).

Lemma download_step_run ps ds id a w :
  download_step E cache_dir (ps, ds) (id, a) w =
  Ok (ps ++ [audio_path_of cache_dir id], ds ++ [duration_of a])
     (cache_step E cache_dir w (id, a)).
Proof.
  unfold download_step, cache_step, audio_path_of, duration_of. simpl.
  rewrite bind_run. unfold os_path_exists at 1. rewrite bind_run.
  unfold get_fs at 1. rewrite ret_run.
  destruct (fs w !! os_path_join cache_dir (id +:+ ".wav")) as [n|] eqn:Hp.
  - rewrite bool_decide_eq_true_2 by eauto. simpl.
    by destruct w.
  - rewrite bool_decide_eq_false_2 by (by intros [? ?]). reflexivity.
Qed.

Lemma cache_step_absent w id a :
  fs w !! audio_path_of cache_dir id = None →
  cache_step E cache_dir w (id, a) =
  {| fs := <[audio_path_of cache_dir id :=
               AudioFile (np_float32 E (array a)) 16000]> (fs w);
     trace := trace w ++ [SoundfileWrite (audio_path_of cache_dir id)
                            (np_float32 E (array a)) 16000] |}.
Proof. intros H. unfold cache_step. simpl. by rewrite H. Qed.

Lemma cache_step_present w id a :
  is_Some (fs w !! audio_path_of cache_dir id) →
  cache_step E cache_dir w (id, a) = w.
Proof. intros [n H]. unfold cache_step. simpl. by rewrite H. Qed.

Lemma download_loop_cons id a items ps ds w :
  download_loop E cache_dir ((id, a) :: items) (ps, ds) w =
  download_loop E cache_dir items
    (ps ++ [audio_path_of cache_dir id], ds ++ [duration_of a])
    (cache_step E cache_dir w (id, a)).
Proof.
  change (download_loop E cache_dir ((id, a) :: items) (ps, ds) w)
    with ((download_step E cache_dir (ps, ds) (id, a)
           ≫= download_loop E cache_dir items) w).
  by rewrite (bind_ok _ _ _ _ _ (download_step_run ps ds id a w)).
Qed.

Lemma download_loop_run items ps ds w :
  download_loop E cache_dir items (ps, ds) w =
  Ok (ps ++ (audio_path_of cache_dir <$> items.*1),
      ds ++ (duration_of <$> items.*2))
     (fold_left (cache_step E cache_dir) items w).
Proof.
  revert ps ds w. induction items as [|[id a] items IH]; intros ps ds w.
  - simpl. by rewrite !app_nil_r.
  - rewrite download_loop_cons, IH. simpl.
    by rewrite <- !(assoc_L (++)).
Qed.

Lemma download_loop_app l1 l2 acc w :
  download_loop E cache_dir (l1 ++ l2) acc w =
  (download_loop E cache_dir l1 acc ≫= download_loop E cache_dir l2) w.
Proof.
  revert acc w. induction l1 as [|[id a] l1 IH]; intros [ps ds] w; [done|].
  rewrite bind_run, <- app_comm_cons, !download_loop_cons, IH.
  by rewrite bind_run.
Qed.

(** A turn of the loop keeps every node it finds, and so does the loop. *)
Lemma cache_step_keeps (w : World) (it : string * Audio) p n :
  fs w !! p = Some n → fs (cache_step E cache_dir w it) !! p = Some n.
Proof.
  intros Hp. unfold cache_step.
  destruct (fs w !! audio_path_of cache_dir it.1) eqn:Hq; [done|].
  simpl. rewrite lookup_insert_ne; [done|]. congruence.
Qed.

Lemma cache_all_keeps (items : list (string * Audio)) (w : World) p n :
  fs w !! p = Some n →
  fs (fold_left (cache_step E cache_dir) items w) !! p = Some n.
Proof.
  revert w. induction items as [|it items IH]; intros w Hp; [done|].
  simpl. by apply IH, cache_step_keeps.
Qed.

End Download.

Section DownloadClaims.
Context (E : Env) (cache_dir : string).

Lemma download_audio_files_run batch w :
  let items := zip (b_id batch) (b_audio batch) in
  download_audio_files E cache_dir batch w =
  Ok {| o_id := b_id batch;
        o_audio := b_audio batch;
        o_norm_text := b_norm_text batch;
        o_references := b_norm_text batch;
        o_audio_filepaths := audio_path_of cache_dir <$> items.*1;
        o_durations := duration_of <$> items.*2 |}
     (fold_left (cache_step E cache_dir) items w).
Proof.
  intros items. unfold download_audio_files.
  by rewrite (bind_ok _ _ _ _ _ (download_loop_run E cache_dir items [] [] w)).
Qed.

Lemma cache_all_trace items w :
  ∃ evs, trace (fold_left (cache_step E cache_dir) items w) = trace w ++ evs
         ∧ Forall write_16k evs.
Proof.
  revert w. induction items as [|it items IH]; intros w; simpl.
  - exists []. by rewrite app_nil_r.
  - destruct (IH (cache_step E cache_dir w it)) as (evs & -> & Hevs).
    unfold cache_step.
    destruct (fs w !! audio_path_of cache_dir it.1); simpl.
    + by exists evs.
    + eexists (_ :: evs). rewrite <- (assoc_L (++)). split; [done|].
      by constructor.
Qed.


(** C5. Every duration recorded for a batch is the number of elements of
    the sample's array over 16000, whatever the sample's own
    [sampling_rate], and every [soundfile.write] of the batch is given the
    rate 16000. *)
Theorem durations_at_16k (batch : Batch) (w : World) :
  ∃ out w' evs,
    download_audio_files E cache_dir batch w = Ok out w'
    ∧ o_durations out
      = (λ a, Z.of_nat (length (array a)) # 16000)
          <$> (zip (b_id batch) (b_audio batch)).*2
    ∧ trace w' = trace w ++ evs
    ∧ Forall write_16k evs.
Proof.
  destruct (cache_all_trace (zip (b_id batch) (b_audio batch)) w)
    as (evs & Htr & Hevs).
  eexists _, _, evs. split; [apply download_audio_files_run|].
  simpl. by split.
Qed.

End DownloadClaims.


(** ** The mapped dataset *)

Lemma concat_chunks {A} (fuel n : nat) (l : list A) :
  (0 < n)%nat → (length l ≤ fuel)%nat → concat (chunks fuel n l) = l.
Proof.
  intros Hn. revert l. induction fuel as [|fuel IH]; intros l Hl.
  - destruct l; [done|simpl in Hl; lia].
  - destruct l as [|x l]; [done|].
    change (chunks (S fuel) n (x :: l))
      with (take n (x :: l) :: chunks fuel n (drop n (x :: l))).
    cbn [concat]. rewrite IH; [apply take_drop|].
    rewrite length_drop. simpl in *. lia.
Qed.

Lemma concat_batches {A} (bs : Z) (l : list A) : concat (batches bs l) = l.
Proof.
  unfold batches. case_bool_decide.
  - destruct l; simpl; [done|]. by rewrite app_nil_r.
  - apply concat_chunks; lia.
Qed.

Lemma concat_fmap {A B} (f : A → B) (ls : list (list A)) :
  concat (fmap (M:=list) f <$> ls) = f <$> concat ls.
Proof.
  induction ls as [|l ls IH]; [done|].
  rewrite fmap_cons. cbn [concat]. by rewrite fmap_app, IH.
Qed.

Section DatasetMap.
Context (E : Env) (cache_dir : string).

Lemma zip_items (chunk : list Sample) :
  zip (s_id <$> chunk) (s_audio <$> chunk) = item_of <$> chunk.
Proof. induction chunk; simpl; [done|]. by f_equal. Qed.

Lemma zip_rows_chunk (chunk : list Sample) :
  zip_rows (s_id <$> chunk) (s_norm_text <$> chunk) (s_norm_text <$> chunk)
    (audio_path_of cache_dir <$> (item_of <$> chunk).*1)
    (duration_of <$> (item_of <$> chunk).*2)
  = row_of cache_dir <$> chunk.
Proof. induction chunk; simpl; [done|]. by f_equal. Qed.

Lemma batch_run (chunk : list Sample) w :
  (download_audio_files E cache_dir (batch_of chunk) ≫= rows_of true) w =
  Ok (row_of cache_dir <$> chunk)
     (fold_left (cache_step E cache_dir) (item_of <$> chunk) w).
Proof.
  rewrite (bind_ok _ _ _ _ _
             (download_audio_files_run E cache_dir (batch_of chunk) w)).
  unfold rows_of, batch_of. cbn [o_id o_audio o_norm_text o_references
    o_audio_filepaths o_durations b_id b_audio b_norm_text].
  rewrite zip_items, !length_fmap.
  rewrite !bool_decide_eq_true_2 by done. simpl.
  by rewrite zip_rows_chunk.
Qed.

Lemma batches_run (cs : list (list Sample)) w :
  comprehension
    (λ chunk, download_audio_files E cache_dir (batch_of chunk)
              ≫= rows_of true) cs w =
  Ok (fmap (M:=list) (row_of cache_dir) <$> cs)
     (fold_left (cache_step E cache_dir) (item_of <$> concat cs) w).
Proof.
  revert w. induction cs as [|c cs IH]; intros w; [done|].
  rewrite comprehension_cons, batch_run, IH. simpl.
  by rewrite fmap_app, fold_left_app.
Qed.

(** The mapped dataset does not depend on how the rows are batched. *)
Lemma dataset_map_run (bs : Z) (ds : list Sample) w :
  dataset_map (download_audio_files E cache_dir) bs ds w =
  Ok (row_of cache_dir <$> ds)
     (fold_left (cache_step E cache_dir) (item_of <$> ds) w).
Proof.
  unfold dataset_map.
  rewrite (bind_ok _ _ _ _ _ (batches_run (batches bs ds) w)).
  by rewrite ret_run, concat_fmap, concat_batches.
Qed.

Lemma collect_from (rows : list Row) (acc : AllData) :
  fold_left
    (λ all_data data,
       {| audio_filepaths :=
            audio_filepaths all_data ++ [r_audio_filepaths data];
          durations := durations all_data ++ [r_durations data];
          references := references all_data ++ [r_references data] |})
    rows acc
  = {| audio_filepaths := audio_filepaths acc ++ (r_audio_filepaths <$> rows);
       durations := durations acc ++ (r_durations <$> rows);
       references := references acc ++ (r_references <$> rows) |}.
Proof.
  revert acc. induction rows as [|r rows IH]; intros acc; simpl.
  - rewrite !app_nil_r. by destruct acc.
  - rewrite IH. simpl. by rewrite <- !(assoc_L (++)).
Qed.

Lemma collect_rows (ds : list Sample) :
  collect (row_of cache_dir <$> ds) =
  {| audio_filepaths := audio_path_of cache_dir ∘ s_id <$> ds;
     durations := duration_of ∘ s_audio <$> ds;
     references := s_norm_text <$> ds |}.
Proof.
  unfold collect. rewrite collect_from. simpl.
  by rewrite <- !list_fmap_compose.
Qed.

End DatasetMap.

(** ** The sort by duration *)

Lemma StronglySorted_fmap_Forall {A B} (R1 : relation A) (R2 : relation B)
    (P : A → Prop) (f : A → B) (l : list A) :
  (∀ x y, P x → P y → R1 x y → R2 (f x) (f y)) →
  Forall P l → StronglySorted R1 l → StronglySorted R2 (f <$> l).
Proof.
  intros HR HP. induction 1 as [|x l Hl IH Hx]; simpl; [constructor|].
  apply Forall_cons in HP as [HPx HPl].
  constructor; [by apply IH|].
  apply Forall_fmap. rewrite Forall_forall in *.
  intros y Hy. apply HR; auto.
Qed.

Lemma zip_keys_Forall (ds : list Sample) :
  Forall (λ p : Q * Sample, p.1 = duration_of (s_audio p.2))
    (zip (duration_of ∘ s_audio <$> ds) ds).
Proof. induction ds; simpl; by constructor. Qed.

Lemma sort_samples_perm (ds : list Sample) : sort_samples ds ≡ₚ ds.
Proof.
  unfold sort_samples. rewrite sort_decorated_perm.
  rewrite snd_zip; [done|]. by rewrite length_fmap.
Qed.

Lemma sort_samples_sorted (ds : list Sample) :
  StronglySorted not_longer (sort_samples ds).
Proof.
  unfold sort_samples.
  eapply (StronglySorted_fmap_Forall (flip key_le) not_longer
            (λ p, p.1 = duration_of (s_audio p.2))).
  - intros [k a] [k' b]. unfold flip, key_le, not_longer. simpl.
    by intros -> ->.
  - rewrite sort_decorated_perm. apply zip_keys_Forall.
  - apply sort_decorated_descending.
Qed.

Lemma filter_payload {A} (f : A → Q) (k : Q) (l : list (Q * A)) :
  Forall (λ p, p.1 = f p.2) l →
  filter (λ a, Qeq_bool (f a) k = true) (l.*2)
  = (filter (λ p : Q * A, Qeq_bool p.1 k = true) l).*2.
Proof.
  induction 1 as [|[q a] l Hq _ IH]; [done|].
  simpl in Hq. subst q. rewrite fmap_cons, !filter_cons. simpl.
  destruct (decide (Qeq_bool (f a) k = true)); by rewrite IH.
Qed.

(** Samples of one and the same duration stay in the order of the
    dataset. *)
Lemma sort_samples_stable (ds : list Sample) (d : Q) :
  filter (λ s, Qeq_bool (duration_of (s_audio s)) d = true) (sort_samples ds)
  = filter (λ s, Qeq_bool (duration_of (s_audio s)) d = true) ds.
Proof.
  unfold sort_samples.
  rewrite (filter_payload (duration_of ∘ s_audio) d);
    [|rewrite sort_decorated_perm; apply zip_keys_Forall].
  rewrite sort_decorated_stable.
  rewrite <- (filter_payload (duration_of ∘ s_audio) d);
    [|apply zip_keys_Forall].
  rewrite snd_zip; [done|]. by rewrite length_fmap.
Qed.

Lemma sorted_indices_samples (ds : list Sample) :
  let durs := duration_of ∘ s_audio <$> ds in
  Forall2 (λ i s, ds !! i = Some s)
    (sort_decorated true (zip durs (seq 0 (length durs)))).*2
    (sort_samples ds).
Proof.
  intros durs. unfold sort_samples. fold durs.
  apply Forall2_keyed_snd, sort_decorated_rel, Forall2_zip_keyed.
  unfold durs. rewrite length_fmap. apply Forall2_range_lookup.
Qed.

Lemma gather_column {B} (h : Sample → B) (ds ss : list Sample) idx w :
  Forall2 (λ i s, ds !! i = Some s) idx ss →
  comprehension (subscript (h <$> ds)) idx w = Ok (h <$> ss) w.
Proof.
  intros H. apply comprehension_subscript, Forall2_fmap_r.
  eapply Forall2_impl; [exact H|].
  intros i s Hi. simpl. by rewrite list_lookup_fmap, Hi.
Qed.

Lemma sort_by_duration_run (f : Sample → string) (g : Sample → string)
    (ds : list Sample) w :
  sort_by_duration
    {| audio_filepaths := f <$> ds;
       durations := duration_of ∘ s_audio <$> ds;
       references := g <$> ds |} w
  = Ok {| audio_filepaths := f <$> sort_samples ds;
          durations := duration_of ∘ s_audio <$> sort_samples ds;
          references := g <$> sort_samples ds |}
       {| fs := fs w;
          trace := trace w ++
                     [SortedCall (duration_of ∘ s_audio <$> ds) true] |}.
Proof.
  unfold sort_by_duration. cbn [audio_filepaths durations references].
  rewrite (bind_ok _ _ _ _ _ (sorted_range_run _ true w)).
  pose proof (sorted_indices_samples ds) as H. simpl in H.
  rewrite (bind_ok _ _ _ _ _ (gather_column f ds _ _ _ H)).
  rewrite (bind_ok _ _ _ _ _ (gather_column g ds _ _ _ H)).
  rewrite (bind_ok _ _ _ _ _
             (gather_column (duration_of ∘ s_audio) ds _ _ _ H)).
  reflexivity.
Qed.

(** ** Lines 22 to 95 *)

(** Traces are compared after reassociating their segments. *)
Ltac norm_trace :=
  cbn [fs trace app]; repeat (rewrite <- !(assoc_L (++)); cbn [app]).

Lemma emit_bind {B} (e : Event) (f : unit → M B) w :
  (emit e ≫= f) w = f tt {| fs := fs w; trace := trace w ++ [e] |}.
Proof. reflexivity. Qed.

Lemma exists_bind {B} (p : string) (f : bool → M B) w :
  (os_path_exists p ≫= f) w = f (bool_decide (is_Some (fs w !! p))) w.
Proof. reflexivity. Qed.

Lemma if_emit (c : bool) (a b : Event) :
  (if c then emit a else emit b) = emit (if c then a else b).
Proof. by destruct c. Qed.

Lemma subsample_run (args : Args) (ds : list Sample) w :
  subsample args ds w =
  Ok match max_eval_samples args with
     | Some n => if (n >? 0)%Z then take (Z.to_nat n) ds else ds
     | None => ds
     end
     {| fs := fs w; trace := trace w ++ subsample_events args |}.
Proof.
  unfold subsample, subsample_events.
  destruct (max_eval_samples args) as [n|]; [destruct (n >? 0)%Z|].
  - rewrite !emit_bind, ret_run. simpl. by rewrite <- (assoc_L (++)).
  - rewrite ret_run, app_nil_r. by destruct w.
  - rewrite ret_run, app_nil_r. by destruct w.
Qed.

Section LoadAndSort.
Context (E : Env) (args : Args).

Lemma makedirs_bind {B} (f : unit → M B) w :
  ((if negb (bool_decide (is_Some (fs w !! CACHE_DIR E args)))
    then os_makedirs E (CACHE_DIR E args) else mret tt) ≫= f) w
  = f tt (made_dirs E args w).
Proof.
  unfold made_dirs. destruct (fs w !! CACHE_DIR E args) eqn:H.
  - by rewrite bool_decide_eq_true_2 by eauto.
  - by rewrite bool_decide_eq_false_2 by (by intros [? ?]).
Qed.

Lemma load_and_sort_run w :
  load_and_sort E args w = Ok (sorted_data E args) (sorted_world E args w).
Proof.
  unfold load_and_sort.
  rewrite exists_bind, makedirs_bind.
  rewrite if_emit, !emit_bind.
  rewrite bind_run, subsample_run.
  rewrite !emit_bind.
  rewrite bind_run, dataset_map_run.
  rewrite collect_rows, sort_by_duration_run.
  unfold sorted_data, sorted_world, cached_world, setup_world, setup_events,
    eval_dataset, load_model_event.
  cbn [fs trace]. rewrite <- !(assoc_L (++)). reflexivity.
Qed.

End LoadAndSort.

(** ** Lines 98 to 132 *)

Section ScoreAndReport.
Context (E : Env) (args : Args).

Lemma normalize_run (ts : list string) w :
  comprehension (λ pred, emit (Normalizer pred);; mret (normalizer E pred))
    ts w
  = Ok (normalizer E <$> ts)
       {| fs := fs w; trace := trace w ++ (Normalizer <$> ts) |}.
Proof.
  revert w. induction ts as [|t ts IH]; intros w.
  - simpl. rewrite ret_run, app_nil_r. by destruct w.
  - rewrite comprehension_cons, emit_bind, ret_run, IH. simpl.
    by rewrite <- (assoc_L (++)).
Qed.

Lemma timed_transcribe_run (all_data : AllData) w :
  timed_transcribe E args (audio_filepaths all_data) w =
  Ok (transcriptions_of E args all_data w,
      (end_time_of E args all_data w - start_time_of E w)%Q)
     {| fs := fs w;
        trace := trace w ++ Time (start_time_of E w)
                 :: transcribe_call args all_data
                 ++ [Time (end_time_of E args all_data w)] |}.
Proof.
  unfold end_time_of, start_time_of, transcriptions_of, transcribe_call.
  cbv [timed_transcribe time_time get_trace get_fs emit mbind M_bind mret
       M_ret fs trace].
  rewrite <- !(assoc_L (++)). reflexivity.
Qed.

Lemma score_and_report_run (all_data : AllData) w :
  score_and_report E args all_data w =
  if Qeq_bool (end_time_of E args all_data w - start_time_of E w) 0
  then Raise ZeroDivisionError
         {| fs := fs_after_manifest E args all_data w;
            trace := trace w ++ report_events E args all_data w |}
  else Ok tt
         {| fs := fs_after_manifest E args all_data w;
            trace := trace w ++ report_events E args all_data w
                     ++ result_prints E args all_data w |}.
Proof.
  unfold score_and_report.
  rewrite (bind_ok _ _ _ _ _ (timed_transcribe_run all_data w)).
  rewrite bind_run, normalize_run, emit_bind.
  rewrite bind_run. unfold get_fs at 1. rewrite bind_run. unfold put_fs at 1.
  rewrite !emit_bind.
  fold (predictions_of E args all_data w).
  cbn [fs trace]. fold (fs_after_manifest E args all_data w).
  destruct (Qeq_bool _ 0).
  - unfold raise. rewrite bind_run. unfold report_events, transcribe_call.
    norm_trace. reflexivity.
  - rewrite bind_run, ret_run, !emit_bind. unfold emit.
    unfold report_events, result_prints, rtfx_of, wer_of, transcribe_call.
    norm_trace. reflexivity.
Qed.

(** The whole run. *)
Lemma main_run w :
  main E args w =
  score_and_report E args (sorted_data E args) (sorted_world E args w).
Proof.
  unfold main. by rewrite (bind_ok _ _ _ _ _ (load_and_sort_run E args w)).
Qed.

End ScoreAndReport.

(** ** The trace of a run *)

Section RunTrace.
Context (E : Env) (args : Args).

Lemma made_dirs_trace w :
  trace (made_dirs E args w) = trace w ++ dir_events E args w.
Proof.
  unfold made_dirs, dir_events. destruct (fs w !! CACHE_DIR E args); simpl.
  - by rewrite app_nil_r.
  - done.
Qed.

Lemma write_events_trace w :
  trace (cached_world E args w)
  = trace (setup_world E args w) ++ write_events E args w.
Proof.
  unfold write_events, cached_world.
  destruct (cache_all_trace E (CACHE_DIR E args)
              (item_of <$> eval_dataset E args) (setup_world E args w))
    as (evs & -> & _).
  by rewrite drop_app_length.
Qed.

Lemma write_events_16k w : Forall write_16k (write_events E args w).
Proof.
  unfold write_events, cached_world.
  destruct (cache_all_trace E (CACHE_DIR E args)
              (item_of <$> eval_dataset E args) (setup_world E args w))
    as (evs & -> & H).
  by rewrite drop_app_length.
Qed.

Lemma sorted_world_trace w :
  trace (sorted_world E args w) = trace w ++ prep_events E args w.
Proof.
  unfold sorted_world, prep_events. cbn [trace].
  rewrite write_events_trace. unfold setup_world. cbn [trace].
  rewrite made_dirs_trace. by rewrite <- !(assoc_L (++)).
Qed.

Lemma main_trace w :
  trace_of (main E args w) = trace w ++ run_events E args w.
Proof.
  rewrite main_run, score_and_report_run. unfold run_events.
  fold (total_time_of E args w).
  destruct (Qeq_bool (total_time_of E args w) 0); cbn [trace_of trace];
    rewrite sorted_world_trace, <- ?(assoc_L (++)); by rewrite ?app_nil_r.
Qed.

Lemma main_new_events w : new_events w (main E args w) = run_events E args w.
Proof. unfold new_events. by rewrite main_trace, drop_app_length. Qed.

(** The run ends normally exactly when the measured time is not zero. *)
Lemma main_outcome w :
  main E args w =
  if Qeq_bool (total_time_of E args w) 0
  then Raise ZeroDivisionError
         {| fs := fs_after_manifest E args (sorted_data E args)
                    (sorted_world E args w);
            trace := trace_of (main E args w) |}
  else Ok tt {| fs := fs_after_manifest E args (sorted_data E args)
                        (sorted_world E args w);
                trace := trace_of (main E args w) |}.
Proof.
  rewrite main_run, score_and_report_run.
  fold (total_time_of E args w).
  by destruct (Qeq_bool (total_time_of E args w) 0).
Qed.

End RunTrace.

(** ** Claims on the whole run *)

(** Proves [Forall P] on a segment of the trace of a run, for a [P] that
    computes on every event. *)
Ltac segment :=
  repeat first
    [ apply Forall_nil_2
    | apply Forall_cons_2
    | apply Forall_app; split
    | apply Forall_fmap, Forall_true; intros ?
    | (eapply Forall_impl; [apply write_events_16k|]; intros [])
    | progress unfold prep_events, report_events, result_prints,
        transcribe_call, setup_events, load_model_event, subsample_events,
        dir_events
    | match goal with
      | |- context [if ?c then _ else _] => destruct c
      | |- context [match ?o with Some _ => _ | None => _ end] => destruct o
      end ];
  simpl; try done; try tauto.

(** Finds an event in a trace given by its segments. *)
Ltac find_event :=
  norm_trace;
  repeat first [rewrite elem_of_app | rewrite elem_of_cons];
  repeat first [left; reflexivity | right].

Section RunClaims.
Context (E : Env) (args : Args).

Lemma sorted_data_descending :
  StronglySorted (λ a b : Q, (b <= a)%Q) (durations (sorted_data E args)).
Proof.
  unfold sorted_data. cbn [durations].
  eapply StronglySorted_fmap; [|apply sort_samples_sorted]. done.
Qed.

Lemma sorted_data_aligned :
  Forall2 (λ p d, ∃ s, s ∈ eval_dataset E args
                       ∧ p = audio_path_of (CACHE_DIR E args) (s_id s)
                       ∧ d = duration_of (s_audio s))
    (audio_filepaths (sorted_data E args)) (durations (sorted_data E args)).
Proof.
  unfold sorted_data. cbn [durations audio_filepaths].
  apply Forall2_fmap, Forall_Forall2_diag, Forall_forall.
  intros s Hs. exists s. rewrite <- (sort_samples_perm (eval_dataset E args)).
  done.
Qed.

(** C1. [all_data], as the sort leaves it and as [transcribe] finds it,
    holds the evaluated samples, all of them and each once: its three lists
    are the cache paths, the durations and the references of one
    rearrangement [ss] of the dataset.  The list of durations is in
    non-increasing order.  The run calls [sorted] on the durations in
    dataset order, with [reverse=True], and later calls [transcribe]
    exactly once, on the file paths of [all_data] in that sorted order (the
    path at any position belongs to a sample whose duration is at the same
    position) and with the batch size of the command line. *)
Theorem sorted_then_transcribed_once (w : World) :
  ∃ all_data w' ss pre post,
    load_and_sort E args w = Ok all_data w'
    ∧ main E args w = score_and_report E args all_data w'
    ∧ ss ≡ₚ eval_dataset E args
    ∧ audio_filepaths all_data
      = (λ s, os_path_join (CACHE_DIR E args) (s_id s +:+ ".wav")) <$> ss
    ∧ durations all_data
      = (λ s, Z.of_nat (length (array (s_audio s))) # 16000) <$> ss
    ∧ references all_data = s_norm_text <$> ss
    ∧ length (audio_filepaths all_data) = length (eval_dataset E args)
    ∧ StronglySorted (λ a b : Q, (b <= a)%Q) (durations all_data)
    ∧ Forall2 (λ p d, ∃ s, s ∈ eval_dataset E args
                           ∧ p = audio_path_of (CACHE_DIR E args) (s_id s)
                           ∧ d = duration_of (s_audio s))
        (audio_filepaths all_data) (durations all_data)
    ∧ new_events w (main E args w)
      = pre ++ Transcribe (audio_filepaths all_data) (batch_size args) :: post
    ∧ SortedCall
        ((λ s, Z.of_nat (length (array (s_audio s))) # 16000)
           <$> eval_dataset E args) true ∈ pre
    ∧ Forall (λ e, ¬ is_transcribe e) pre
    ∧ Forall (λ e, ¬ is_transcribe e) post.
Proof.
  set (ad := sorted_data E args). set (sw := sorted_world E args w).
  exists ad, sw, (sort_samples (eval_dataset E args)).
  exists (prep_events E args w
          ++ [Time (start_time_of E sw); AutocastEnter; InferenceModeEnter]).
  exists (drop 4 (report_events E args ad sw)
          ++ (if Qeq_bool (total_time_of E args w) 0 then []
              else result_prints E args ad sw)).
  split; [apply load_and_sort_run|].
  split; [apply main_run|].
  split; [apply sort_samples_perm|].
  split; [reflexivity|]. split; [reflexivity|]. split; [reflexivity|].
  split.
  { unfold ad, sorted_data. cbn [audio_filepaths].
    by rewrite length_fmap, (sort_samples_perm (eval_dataset E args)). }
  split; [apply sorted_data_descending|].
  split; [apply sorted_data_aligned|].
  split; [|split; [|split]].
  - rewrite main_new_events. unfold run_events, report_events,
      transcribe_call.
    cbn [app drop]. norm_trace. reflexivity.
  - unfold prep_events.
    change (λ s : Sample, Z.of_nat (length (array (s_audio s))) # 16000)
      with (duration_of ∘ s_audio).
    rewrite !elem_of_app, !elem_of_cons. tauto.
  - segment.
  - segment.
Qed.

(** C2. The three lists of [all_data] are rearranged by one and the same
    list of indices, a permutation of [range(len(dataset))]: at every
    position the path, the reference and the duration are those of the one
    sample the index at that position names.  The scorer is called on these
    references and on the normalised transcriptions of these paths, in the
    same order. *)
Theorem columns_sorted_together (w : World) :
  ∃ sorted_indices all_data w',
    load_and_sort E args w = Ok all_data w'
    ∧ sorted_indices ≡ₚ seq 0 (length (eval_dataset E args))
    ∧ Forall2 (λ i p, ∃ s, eval_dataset E args !! i = Some s
                           ∧ p = audio_path_of (CACHE_DIR E args) (s_id s))
        sorted_indices (audio_filepaths all_data)
    ∧ Forall2 (λ i r, ∃ s, eval_dataset E args !! i = Some s
                           ∧ r = s_norm_text s)
        sorted_indices (references all_data)
    ∧ Forall2 (λ i d, ∃ s, eval_dataset E args !! i = Some s
                           ∧ d = duration_of (s_audio s))
        sorted_indices (durations all_data)
    ∧ WerCompute (references all_data)
        (normalizer E
           <$> transcribe E (fs w') (audio_filepaths all_data)
                 (batch_size args))
      ∈ new_events w (main E args w).
Proof.
  set (ds := eval_dataset E args).
  set (durs := duration_of ∘ s_audio <$> ds).
  exists (sort_decorated true (zip durs (seq 0 (length durs)))).*2,
    (sorted_data E args), (sorted_world E args w).
  pose proof (sorted_indices_samples ds) as H. cbv zeta in H. fold durs in H.
  assert (Hcol : ∀ {B} (f : Sample → B),
            Forall2 (λ i x, ∃ s, ds !! i = Some s ∧ x = f s)
              (sort_decorated true (zip durs (seq 0 (length durs)))).*2
              (f <$> sort_samples ds)).
  { intros B f. apply Forall2_fmap_r.
    eapply Forall2_impl; [exact H|]. intros i s Hi. by exists s. }
  split; [apply load_and_sort_run|].
  split.
  { rewrite sort_decorated_perm, snd_zip.
    - unfold durs. by rewrite length_fmap.
    - by rewrite length_seq. }
  split; [apply (Hcol _ (audio_path_of (CACHE_DIR E args) ∘ s_id))|].
  split; [apply (Hcol _ s_norm_text)|].
  split; [apply (Hcol _ (duration_of ∘ s_audio))|].
  rewrite main_new_events. unfold run_events, report_events,
    transcribe_call, predictions_of, transcriptions_of.
  find_event.
Qed.

(** C3. The scorer is called once.  Its predictions are the normaliser
    applied to each text the model returned, and its references are
    [norm_text] fields of evaluated samples. *)
Theorem scorer_gets_normalized_texts (w : World) :
  ∃ all_data w' raw pre post,
    load_and_sort E args w = Ok all_data w'
    ∧ raw = transcribe E (fs w') (audio_filepaths all_data) (batch_size args)
    ∧ new_events w (main E args w)
      = pre ++ WerCompute (references all_data) (normalizer E <$> raw)
               :: post
    ∧ Forall (λ e, ¬ is_wer_compute e) pre
    ∧ Forall (λ e, ¬ is_wer_compute e) post
    ∧ Forall (λ r, ∃ s, s ∈ eval_dataset E args ∧ r = s_norm_text s)
        (references all_data).
Proof.
  set (ad := sorted_data E args). set (sw := sorted_world E args w).
  exists ad, sw, (transcriptions_of E args ad sw).
  exists (prep_events E args w
          ++ Time (start_time_of E sw) :: transcribe_call args ad
          ++ [Time (end_time_of E args ad sw)]
          ++ (Normalizer <$> transcriptions_of E args ad sw)
          ++ [WriteManifest (references ad) (predictions_of E args ad sw)
                (model_id args) (dataset_path args) (dataset args)
                (split args) (durations ad);
              Print [PStr "Results saved at path:";
                     PStr (abspath E
                             (write_manifest E (references ad)
                                (predictions_of E args ad sw) (model_id args)
                                (dataset_path args) (dataset args)
                                (split args) (durations ad)))]]).
  exists (if Qeq_bool (total_time_of E args w) 0 then []
          else result_prints E args ad sw).
  split; [apply load_and_sort_run|].
  split; [done|].
  split; [|split; [|split]].
  - rewrite main_new_events. unfold run_events, report_events,
      transcribe_call, predictions_of.
    norm_trace. reflexivity.
  - segment.
  - segment.
  - unfold ad, sorted_data. cbn [references].
    apply Forall_fmap, Forall_forall. intros s Hs. exists s.
    by rewrite <- (sort_samples_perm (eval_dataset E args)).
Qed.

(** C7, as the code has it.  The manifest writer is called once, with three
    series: the references, the normalised predictions and, as
    [audio_length], the durations, next to the model id, the dataset path,
    the dataset name and the split.  The audio file paths are not among its
    arguments. *)
Theorem manifest_gets_three_series (w : World) :
  ∃ all_data w' predictions pre post,
    load_and_sort E args w = Ok all_data w'
    ∧ predictions
      = normalizer E <$> transcribe E (fs w') (audio_filepaths all_data)
                           (batch_size args)
    ∧ new_events w (main E args w)
      = pre ++ WriteManifest (references all_data) predictions
                 (model_id args) (dataset_path args) (dataset args)
                 (split args) (durations all_data)
               :: post
    ∧ Forall (λ e, ¬ is_write_manifest e) pre
    ∧ Forall (λ e, ¬ is_write_manifest e) post.
Proof.
  set (ad := sorted_data E args). set (sw := sorted_world E args w).
  exists ad, sw, (predictions_of E args ad sw).
  exists (prep_events E args w
          ++ Time (start_time_of E sw) :: transcribe_call args ad
          ++ [Time (end_time_of E args ad sw)]
          ++ (Normalizer <$> transcriptions_of E args ad sw)).
  exists ([Print [PStr "Results saved at path:";
                  PStr (abspath E
                          (write_manifest E (references ad)
                             (predictions_of E args ad sw) (model_id args)
                             (dataset_path args) (dataset args)
                             (split args) (durations ad)))];
           WerCompute (references ad) (predictions_of E args ad sw)]
          ++ (if Qeq_bool (total_time_of E args w) 0 then []
              else result_prints E args ad sw)).
  split; [apply load_and_sort_run|].
  split; [done|].
  split; [|split].
  - rewrite main_new_events. unfold run_events, report_events,
      transcribe_call.
    norm_trace. reflexivity.
  - segment.
  - segment.
Qed.

End RunClaims.

(** C7, as the specification has it, fails: in the run of [demo_env] the
    paths given to [transcribe] are not a series the manifest writer
    receives. *)
Lemma manifest_misses_paths :
  ¬ manifest_receives
      (new_events demo_world (main demo_env demo_args demo_world))
      (audio_filepaths (sorted_data demo_env demo_args)).
Proof.
  unfold manifest_receives. apply (bool_decide_eq_false_1 _).
  vm_compute. reflexivity.
Qed.

(** ** The order of the stages *)

Lemma between_nil a b : between a b [].
Proof. split; constructor. Qed.

Lemma between_replicate a n : between a a (replicate n a).
Proof.
  split.
  - induction n; simpl; constructor; [done|].
    apply Forall_replicate. lia.
  - apply Forall_replicate. lia.
Qed.

Lemma between_singleton a : between a a [a].
Proof. apply (between_replicate a 1). Qed.

Lemma between_weaken a b a' b' l :
  (a' ≤ a)%nat → (b ≤ b')%nat → between a b l → between a' b' l.
Proof.
  intros Ha Hb [Hs Hl]. split; [done|].
  eapply Forall_impl; [exact Hl|]. simpl. lia.
Qed.

Lemma between_app a b c d l1 l2 :
  (b ≤ c)%nat → between a b l1 → between c d l2 →
  between (a `min` c) (b `max` d) (l1 ++ l2).
Proof.
  intros Hbc [Hs1 Hl1] [Hs2 Hl2]. split.
  - apply StronglySorted_app_2; [|done..].
    rewrite Forall_forall in Hl1, Hl2.
    intros x y Hx Hy. specialize (Hl1 x Hx). specialize (Hl2 y Hy). lia.
  - apply Forall_app. split.
    + eapply Forall_impl; [exact Hl1|]. simpl. lia.
    + eapply Forall_impl; [exact Hl2|]. simpl. lia.
Qed.

Lemma stage_ranks_app order l1 l2 :
  stage_ranks order (l1 ++ l2) = stage_ranks order l1 ++ stage_ranks order l2.
Proof. apply omap_app. Qed.

Lemma stage_ranks_cons order (e : Event) (l : list Event) :
  stage_ranks order (e :: l) =
  match stage_of e ≫= position order with
  | Some r => r :: stage_ranks order l
  | None => stage_ranks order l
  end.
Proof. reflexivity. Qed.

Lemma stage_ranks_const order (l : list Event) (r : nat) :
  Forall (λ e, stage_of e ≫= position order = Some r) l →
  stage_ranks order l = replicate (length l) r.
Proof.
  induction 1 as [|e l He _ IH]; [done|].
  rewrite stage_ranks_cons, He, IH. done.
Qed.

Lemma stage_ranks_none order (l : list Event) :
  Forall (λ e, stage_of e = None) l → stage_ranks order l = [].
Proof.
  induction 1 as [|e l He _ IH]; [done|].
  rewrite stage_ranks_cons, He, IH. done.
Qed.

Section StageOrder.
Context (E : Env) (args : Args) (w : World).

Lemma ranks_dir_events : stage_ranks code_order (dir_events E args w) = [].
Proof. apply stage_ranks_none. segment. Qed.

Lemma ranks_setup_events : stage_ranks code_order (setup_events args) = [0%nat].
Proof.
  unfold setup_events, load_model_event, subsample_events.
  destruct (endswith _ _), (max_eval_samples args) as [n|];
    try destruct (n >? 0)%Z; reflexivity.
Qed.

Lemma ranks_write_events :
  stage_ranks code_order (write_events E args w)
  = replicate (length (write_events E args w)) 1%nat.
Proof.
  apply stage_ranks_const.
  eapply Forall_impl; [apply write_events_16k|]. by intros [].
Qed.

Lemma ranks_normalizers (ts : list string) :
  stage_ranks code_order (Normalizer <$> ts) = replicate (length ts) 4%nat.
Proof.
  rewrite <- (length_fmap Normalizer). apply stage_ranks_const.
  apply Forall_fmap, Forall_true. done.
Qed.

Lemma stages_present :
  Forall (λ s, Exists (λ e, stage_of e = Some s)
                 (new_events w (main E args w)))
    [Load; Sort; Infer; Manifest; Score].
Proof.
  rewrite main_new_events.
  unfold run_events, prep_events, setup_events, report_events,
    transcribe_call.
  repeat apply Forall_cons_2; [..|apply Forall_nil_2];
    apply Exists_exists.
  - exists LoadData. split; [find_event|done].
  - eexists (SortedCall _ _). split; [find_event|done].
  - eexists (Transcribe _ _). split; [find_event|done].
  - eexists (WriteManifest _ _ _ _ _ _ _). split; [find_event|done].
  - eexists (WerCompute _ _). split; [find_event|done].
Qed.

(** C6, as the code has it.  The events of a run follow the order: dataset
    load, audio materialisation, duration sort, model inference, prediction
    normalisation, manifest write, WER scoring, result printing; the load,
    the sort, the inference, the manifest write and the scoring take place
    in every run.  The manifest is written before the WER is computed. *)
Theorem stages_in_code_order :
  follows_order code_order (new_events w (main E args w))
  ∧ Forall (λ s, Exists (λ e, stage_of e = Some s)
                   (new_events w (main E args w)))
      [Load; Sort; Infer; Manifest; Score].
Proof.
  split; [|apply stages_present].
  unfold follows_order. rewrite main_new_events.
  unfold run_events, prep_events, report_events, transcribe_call.
  rewrite !stage_ranks_app.
  rewrite ranks_dir_events, ranks_setup_events, ranks_write_events.
  change (Time ?t :: ?l ++ ?k) with ((Time t :: l) ++ k).
  rewrite !stage_ranks_app, ranks_normalizers.
  set (n_writes := length (write_events E args w)).
  set (n_texts := length (transcriptions_of E args (sorted_data E args)
                            (sorted_world E args w))).
  assert (Htail : between 7 7
            (stage_ranks code_order
               (if Qeq_bool (total_time_of E args w) 0 then []
                else result_prints E args (sorted_data E args)
                       (sorted_world E args w)))).
  { destruct (Qeq_bool _ 0); [apply between_nil|].
    apply (between_replicate 7 2). }
  cbn [stage_ranks omap app stage_of mbind option_bind position code_order
       decide decide_rel Stage_eq_dec fmap option_fmap option_map].
  simpl.
  rewrite <- !(assoc_L (++)).
  match goal with |- StronglySorted le ?l => cut (between 0 7 l) end;
    [by intros [? _]|].
  apply (between_app 0 0 1 7 [0%nat]); [lia|apply between_singleton|].
  apply (between_app 1 1 2 7); [lia|apply between_replicate|].
  apply (between_app 2 2 3 7 [2%nat]); [lia|apply between_singleton|].
  apply (between_app 3 3 4 7 [3%nat]); [lia|apply between_singleton|].
  apply (between_app 4 4 5 7); [lia|apply between_replicate|].
  apply (between_app 5 5 6 7 [5%nat]); [lia|apply between_singleton|].
  apply (between_app 6 6 7 7 [6%nat]); [lia|apply between_singleton|].
  exact Htail.
Qed.

End StageOrder.

(** C6, as the specification has it, fails: in the run of [demo_env] the
    manifest is written before the WER is computed. *)
Lemma stages_not_in_spec_order :
  ¬ follows_order spec_order
      (new_events demo_world (main demo_env demo_args demo_world)).
Proof.
  unfold follows_order. apply (bool_decide_eq_false_1 _).
  vm_compute. reflexivity.
Qed.

(** ** The subsampling, the device *)

Section Reported.
Context (E : Env) (args : Args).

Lemma take_in_run (n : Z) (w : World) :
  Take n ∈ run_events E args w ↔ Take n ∈ subsample_events args.
Proof.
  unfold run_events, prep_events, setup_events.
  assert (H1 : Forall (λ e, ¬ is_take e)
                 (dir_events E args w
                  ++ [load_model_event args; ModelEval; ModelTo "bfloat16";
                      LoadData])) by segment.
  assert (H2 : Forall (λ e, ¬ is_take e)
                 ([PrepareData; SetDecodingStrategy "greedy_batched";
                   ChangeDecodingStrategy]
                  ++ write_events E args w
                  ++ [SortedCall
                        (duration_of ∘ s_audio <$> eval_dataset E args) true]
                  ++ report_events E args (sorted_data E args)
                       (sorted_world E args w)
                  ++ (if Qeq_bool (total_time_of E args w) 0 then []
                      else result_prints E args (sorted_data E args)
                             (sorted_world E args w)))) by segment.
  rewrite Forall_forall in H1, H2.
  norm_trace. repeat first [rewrite elem_of_app | rewrite elem_of_cons].
  split.
  - intros H.
    assert (Hcase : Take n ∈ subsample_events args
                    ∨ Take n ∈ dir_events E args w
                               ++ [load_model_event args; ModelEval;
                                   ModelTo "bfloat16"; LoadData]
                    ∨ Take n ∈ [PrepareData;
                                SetDecodingStrategy "greedy_batched";
                                ChangeDecodingStrategy]
                               ++ write_events E args w
                               ++ [SortedCall
                                     (duration_of ∘ s_audio
                                        <$> eval_dataset E args) true]
                               ++ report_events E args (sorted_data E args)
                                    (sorted_world E args w)
                               ++ (if Qeq_bool (total_time_of E args w) 0
                                   then []
                                   else result_prints E args
                                          (sorted_data E args)
                                          (sorted_world E args w))).
    { repeat first [rewrite elem_of_app | rewrite elem_of_cons]. tauto. }
    destruct Hcase as [?|[Hc|Hc]]; [done|..].
    + by destruct (H1 _ Hc).
    + by destruct (H2 _ Hc).
  - tauto.
Qed.

(** C9. The dataset is cut to its first [max_eval_samples] rows when that
    argument is given and greater than zero, and [take] is then called with
    it; when the argument is absent, zero or negative the dataset is left
    as it is and nothing is called.  In a whole run [take(n)] is called if
    and only if [max_eval_samples] is [n] and [n > 0]. *)
Theorem subsample_iff_positive (ds : list Sample) (w : World) :
  ∃ ds' w',
    subsample args ds w = Ok ds' w'
    ∧ (∀ n, max_eval_samples args = Some n → (0 < n)%Z →
         ds' = take (Z.to_nat n) ds
         ∧ new_events w (Ok ds' w')
           = [Print [PStr ("Subsampling dataset to first " +:+ pretty n
                           +:+ " samples !")]; Take n])
    ∧ (max_eval_samples args = None
       ∨ (∃ n, max_eval_samples args = Some n ∧ (n ≤ 0)%Z) →
       ds' = ds ∧ w' = w)
    ∧ (∀ n, Take n ∈ new_events w (main E args w)
            ↔ max_eval_samples args = Some n ∧ (0 < n)%Z).
Proof.
  eexists _, _. split; [apply subsample_run|].
  split; [|split].
  - intros n Hn Hpos. unfold new_events, subsample_events. cbn [trace_of trace].
    rewrite Hn. assert ((n >? 0)%Z = true) as -> by lia.
    by rewrite drop_app_length.
  - unfold subsample_events. intros [Hn|(n & Hn & Hle)]; rewrite Hn.
    + rewrite app_nil_r. by destruct w.
    + assert ((n >? 0)%Z = false) as -> by lia.
      rewrite app_nil_r. by destruct w.
  - intros n. rewrite main_new_events, take_in_run. unfold subsample_events.
    destruct (max_eval_samples args) as [m|].
    + destruct (m >? 0)%Z eqn:Hm.
      * rewrite !elem_of_cons, elem_of_nil. split.
        -- intros [?|[[= ->]|[]]]; [done|]. split; [done|lia].
        -- intros [[= ->] _]. right. by left.
      * rewrite elem_of_nil. split; [done|]. intros [[= ->] ?]. lia.
    + rewrite elem_of_nil. split; [done|]. by intros [? _].
Qed.

(** C10. The device is chosen by the sign of [--device] alone: a negative
    value, whichever it is, gives ["cpu"], and a value of zero or more
    gives ["cuda:"] followed by the value; the model is loaded on the
    device chosen. *)
Theorem device_by_sign (w : World) :
  ((device args < 0)%Z → select_device args = "cpu")
  ∧ ((0 ≤ device args)%Z →
     select_device args = "cuda:" +:+ pretty (device args))
  ∧ (RestoreFrom (model_id args) (select_device args)
       ∈ new_events w (main E args w)
     ∨ FromPretrained (model_id args) (select_device args)
       ∈ new_events w (main E args w)).
Proof.
  unfold select_device. split; [|split].
  - intros H. by assert ((device args >=? 0)%Z = false) as -> by lia.
  - intros H. by assert ((device args >=? 0)%Z = true) as -> by lia.
  - rewrite main_new_events.
    unfold run_events, prep_events, setup_events, load_model_event,
      select_device.
    destruct (endswith (model_id args) ".nemo"); [left|right]; find_event.
Qed.

End Reported.

(** ** The claims on concrete runs *)

Lemma subsample_iff_positive_witness :
  (max_eval_samples gpu_args = Some 2 ∧ (0 < 2)%Z
   ∧ ∃ w', subsample gpu_args demo_samples demo_world
           = Ok (take 2 demo_samples) w')
  ∧ ((∃ n, max_eval_samples zero_args = Some n ∧ (n ≤ 0)%Z)
     ∧ subsample zero_args demo_samples demo_world
       = Ok demo_samples demo_world).
Proof.
  split.
  - split; [reflexivity|]. split; [lia|].
    destruct (subsample_iff_positive demo_env gpu_args demo_samples
                demo_world) as (ds' & w' & Hrun & Hpos & _).
    destruct (Hpos 2 eq_refl) as [-> _]; [lia|]. by exists w'.
  - assert (H : ∃ n, max_eval_samples zero_args = Some n ∧ (n ≤ 0)%Z)
      by (exists 0; split; [reflexivity|lia]).
    split; [exact H|].
    destruct (subsample_iff_positive demo_env zero_args demo_samples
                demo_world) as (ds' & w' & Hrun & _ & Hneg & _).
    destruct (Hneg (or_intror H)) as [-> ->]. exact Hrun.
Defined.

Lemma device_by_sign_witness :
  ((device demo_args < 0)%Z ∧ select_device demo_args = "cpu")
  ∧ ((0 ≤ device gpu_args)%Z ∧ select_device gpu_args = "cuda:1").
Proof.
  split; split.
  - simpl. lia.
  - apply (proj1 (device_by_sign demo_env demo_args demo_world)).
    simpl. lia.
  - simpl. lia.
  - apply (proj1 (proj2 (device_by_sign demo_env gpu_args demo_world))).
    simpl. lia.
Defined.

(** The run of [demo_env], evaluated. *)
Example demo_sorted_paths :
  audio_filepaths (sorted_data demo_env demo_args)
  = ["/work/audio_cache/librispeech/b.wav";
     "/work/audio_cache/librispeech/a.wav";
     "/work/audio_cache/librispeech/c.wav"].
Proof. vm_compute. reflexivity. Qed.

Example demo_manifest_call :
  filter (λ e, manifest_series e ≠ [])
    (new_events demo_world (main demo_env demo_args demo_world))
  = [WriteManifest ["two"; "one"; "three"]
       ["n T /work/audio_cache/librispeech/b.wav";
        "n T /work/audio_cache/librispeech/a.wav";
        "n T /work/audio_cache/librispeech/c.wav"]
       "nvidia/parakeet-ctc-0.6b" "esb/datasets" "librispeech" "test"
       [3 # 16000; 2 # 16000; 1 # 16000]%Q].
Proof. vm_compute. reflexivity. Qed.

Example demo_spec_ranks :
  stage_ranks spec_order
    (new_events demo_world (main demo_env demo_args demo_world))
  = [0; 1; 1; 1; 2; 3; 4; 4; 4; 6; 5; 7; 7]%nat.
Proof. vm_compute. reflexivity. Qed.

Example demo_code_ranks :
  stage_ranks code_order
    (new_events demo_world (main demo_env demo_args demo_world))
  = [0; 1; 1; 1; 2; 3; 4; 4; 4; 5; 6; 7; 7]%nat.
Proof. vm_compute. reflexivity. Qed.

Example demo_result_lines :
  drop 25 (new_events demo_world (main demo_env demo_args demo_world))
  = [Print [PStr "RTFX:"; PNum (0 # 100)];
     Print [PStr "WER:"; PNum (1250 # 100); PStr "%"]].
Proof. vm_compute. reflexivity. Qed.

(** The results file is in the file system when the run is over. *)
Example demo_manifest_file :
  fs (world_of (main demo_env demo_args demo_world))
    !! "/work/results/manifest.jsonl"
  = Some (TextFile
            ["two | n T /work/audio_cache/librispeech/b.wav";
             "one | n T /work/audio_cache/librispeech/a.wav";
             "three | n T /work/audio_cache/librispeech/c.wav"]).
Proof. vm_compute. reflexivity. Qed.

(** A tie: two samples of one duration keep the order of the dataset, as
    [sorted(..., reverse=True)] has it. *)
Example tie_keeps_order :
  (sort_decorated true (zip [1; 2; 1; 2]%Q [0; 1; 2; 3]%nat)).*2
  = [1; 3; 0; 2]%nat.
Proof. vm_compute. reflexivity. Qed.

(** An id that is an absolute path leaves the cache directory. *)
Example absolute_id_path : audio_path_of "/c" "/tmp/x" = "/tmp/x.wav".
Proof. reflexivity. Qed.

(** * Further properties *)

(** ** Strings and paths *)

Lemma append_cons (x : Ascii.ascii) (a b : string) :
  String x a +:+ b = String x (a +:+ b).
Proof. reflexivity. Qed.

Lemma append_nil_l (a : string) : "" +:+ a = a.
Proof. reflexivity. Qed.

Lemma append_assoc (a b c : string) : (a +:+ b) +:+ c = a +:+ (b +:+ c).
Proof.
  induction a as [|x a IH]; [done|]. by rewrite !append_cons, IH.
Qed.

Lemma append_nil_r (a : string) : a +:+ "" = a.
Proof. induction a as [|x a IH]; [done|]. by rewrite append_cons, IH. Qed.

Lemma prefix_app (p s : string) :
  String.prefix p s = true ↔ ∃ t, s = p +:+ t.
Proof.
  revert s. induction p as [|a p IH]; intros s.
  - split; [intros _; by exists s|]. by destruct s.
  - destruct s as [|b s]; [split; [done|by intros [? ?]]|]. simpl.
    destruct (Ascii.ascii_dec a b) as [->|Hab].
    + rewrite IH. split; intros [t Ht]; exists t.
      * by rewrite append_cons, Ht.
      * rewrite append_cons in Ht. by injection Ht.
    + split; [done|]. intros [t Ht]. rewrite append_cons in Ht.
      injection Ht. congruence.
Qed.

Lemma rev_app_append (s1 s2 : string) :
  String.rev_app s1 s2 = String.rev s1 +:+ s2.
Proof.
  unfold String.rev. revert s2. induction s1 as [|a s1 IH]; intros s2; [done|].
  simpl. rewrite IH, (IH (String a "")).
  by rewrite append_assoc.
Qed.

Lemma rev_cons (a : Ascii.ascii) (s : string) :
  String.rev (String a s) = String.rev s +:+ String a "".
Proof. unfold String.rev at 1. simpl. apply rev_app_append. Qed.

Lemma rev_append (s1 s2 : string) :
  String.rev (s1 +:+ s2) = String.rev s2 +:+ String.rev s1.
Proof.
  induction s1 as [|a s1 IH].
  - by rewrite append_nil_l, append_nil_r.
  - by rewrite append_cons, !rev_cons, IH, append_assoc.
Qed.

Lemma rev_involutive (s : string) : String.rev (String.rev s) = s.
Proof.
  induction s as [|a s IH]; [done|].
  by rewrite rev_cons, rev_append, IH.
Qed.

(** [s.endswith(suffix)] holds exactly when [s] is some string followed by
    [suffix]. *)
Lemma endswith_app (s suf : string) :
  endswith s suf = true ↔ ∃ pre, s = pre +:+ suf.
Proof.
  unfold endswith. rewrite prefix_app. split.
  - intros [t Ht]. exists (String.rev t).
    rewrite <- (rev_involutive s), Ht, rev_append. by rewrite rev_involutive.
  - intros [pre ->]. exists (String.rev pre). apply rev_append.
Qed.

Lemma append_inj_r (a b c : string) : a +:+ c = b +:+ c → a = b.
Proof.
  intros H. apply (f_equal String.rev) in H. rewrite !rev_append in H.
  apply (inj _) in H. apply (f_equal String.rev) in H.
  by rewrite !rev_involutive in H.
Qed.

Lemma prefix_cons (a b : Ascii.ascii) (p s : string) :
  String.prefix (String a p) (String b s)
  = if Ascii.ascii_dec a b then String.prefix p s else false.
Proof. reflexivity. Qed.

Lemma prefix_nil (s : string) : String.prefix "" s = true.
Proof. by destruct s. Qed.

Lemma startswith_slash_append (id s : string) :
  startswith s "/" = false →
  startswith (id +:+ s) "/" = startswith id "/".
Proof.
  intros Hs. destruct id as [|c id]; [by rewrite append_nil_l, Hs|].
  rewrite append_cons. unfold startswith. rewrite !prefix_cons.
  destruct (Ascii.ascii_dec _ c); [|done]. by rewrite !prefix_nil.
Qed.

Lemma endswith_slash_append (a b : string) :
  b ≠ "" → endswith (a +:+ b) "/" = endswith b "/".
Proof.
  intros Hb. unfold endswith. rewrite rev_append.
  change (String.rev "/") with "/".
  destruct (String.rev b) as [|c r] eqn:Hr.
  - apply (f_equal String.rev) in Hr. by rewrite rev_involutive in Hr.
  - rewrite append_cons, !prefix_cons.
    destruct (Ascii.ascii_dec _ c); [|done]. by rewrite !prefix_nil.
Qed.

Lemma eqb_append_nonempty (a : string) (c : Ascii.ascii) (b : string) :
  String.eqb (a +:+ String c b) "" = false.
Proof. destruct a; reflexivity. Qed.

Section Paths.
Context (E : Env).

(** X1. A sample id that does not start with a slash is cached at the cache
    directory, a separator that depends on the directory alone, the id and
    [.wav]; two such ids that differ are cached at different paths.  An id
    that starts with a slash is cached at the id followed by [.wav],
    whatever the cache directory. *)
Theorem audio_path_cases (cache_dir : string) :
  ∃ sep,
    (sep = "" ∨ sep = "/")
    ∧ (∀ id, startswith id "/" = false →
         audio_path_of cache_dir id = cache_dir +:+ sep +:+ id +:+ ".wav")
    ∧ (∀ id1 id2, startswith id1 "/" = false → startswith id2 "/" = false →
         audio_path_of cache_dir id1 = audio_path_of cache_dir id2 →
         id1 = id2)
    ∧ (∀ id, startswith id "/" = true →
         audio_path_of cache_dir id = id +:+ ".wav").
Proof.
  set (sep := if (String.eqb cache_dir "" || endswith cache_dir "/")%bool
              then "" else "/").
  assert (Hrel : ∀ id, startswith id "/" = false →
            audio_path_of cache_dir id = cache_dir +:+ sep +:+ id +:+ ".wav").
  { intros id Hid. unfold audio_path_of, os_path_join, sep.
    rewrite startswith_slash_append, Hid by done.
    by destruct (String.eqb cache_dir "" || endswith cache_dir "/")%bool. }
  exists sep. split; [|split; [exact Hrel|split]].
  - unfold sep. destruct (_ || _)%bool; auto.
  - intros id1 id2 H1 H2. rewrite (Hrel id1 H1), (Hrel id2 H2). intros H.
    apply (inj _), (inj _) in H. by apply append_inj_r in H.
  - intros id Hid. unfold audio_path_of, os_path_join.
    by rewrite startswith_slash_append, Hid.
Qed.

(** X2. When the working directory is not empty and does not end with a
    slash and the dataset name does not start with one, the cache directory
    is the working directory, [/audio_cache/] and the dataset name.  A
    dataset name that starts with a slash is itself the cache directory. *)
Theorem cache_dir_layout (args : Args) :
  (String.eqb (getcwd E) "" = false → endswith (getcwd E) "/" = false →
   startswith (dataset args) "/" = false →
   CACHE_DIR E args = getcwd E +:+ "/audio_cache/" +:+ dataset args)
  ∧ (startswith (dataset args) "/" = true →
     CACHE_DIR E args = dataset args).
Proof.
  unfold CACHE_DIR, os_path_join. split.
  - intros Hne Hsl Hds. rewrite Hds, Hne, Hsl. simpl.
    change (getcwd E +:+ "/" +:+ "audio_cache")
      with (getcwd E +:+ "/audio_cache").
    rewrite endswith_slash_append by done.
    change (endswith "/audio_cache" "/") with false.
    rewrite eqb_append_nonempty. simpl.
    rewrite append_assoc. reflexivity.
  - intros Hds. by rewrite Hds.
Qed.

End Paths.

Lemma audio_path_cases_witness :
  startswith "a" "/" = false ∧ startswith "b" "/" = false
  ∧ startswith "/tmp/x" "/" = true
  ∧ ∃ sep,
    (sep = "" ∨ sep = "/")
    ∧ (∀ id, startswith id "/" = false →
         audio_path_of "/c" id = "/c" +:+ sep +:+ id +:+ ".wav")
    ∧ (∀ id1 id2, startswith id1 "/" = false → startswith id2 "/" = false →
         audio_path_of "/c" id1 = audio_path_of "/c" id2 → id1 = id2)
    ∧ (∀ id, startswith id "/" = true →
         audio_path_of "/c" id = id +:+ ".wav").
Proof.
  split; [reflexivity|]. split; [reflexivity|]. split; [reflexivity|].
  apply (audio_path_cases "/c").
Defined.

Lemma cache_dir_layout_witness :
  (String.eqb (getcwd demo_env) "" = false
   ∧ endswith (getcwd demo_env) "/" = false
   ∧ startswith (dataset demo_args) "/" = false
   ∧ CACHE_DIR demo_env demo_args = "/work/audio_cache/librispeech")
  ∧ (startswith "/data/ls" "/" = true
     ∧ CACHE_DIR demo_env
         {| model_id := "m"; dataset_path := "p"; dataset := "/data/ls";
            split := "test"; device := 0; batch_size := 1;
            max_eval_samples := None; streaming := true |}
       = "/data/ls").
Proof.
  split.
  - split; [reflexivity|]. split; [reflexivity|]. split; [reflexivity|].
    apply (proj1 (cache_dir_layout demo_env demo_args)); reflexivity.
  - split; [reflexivity|].
    apply (proj2 (cache_dir_layout demo_env
                    {| model_id := "m"; dataset_path := "p";
                       dataset := "/data/ls"; split := "test"; device := 0;
                       batch_size := 1; max_eval_samples := None;
                       streaming := true |})).
    reflexivity.
Defined.

(** ** The model and the cache directory *)

Section ModelSetup.
Context (E : Env) (args : Args).

(** X3. A run loads the model once, before anything else but the creation
    of the cache directory: with [restore_from] when the model id is some
    string followed by [.nemo], with [from_pretrained] otherwise, on the
    device selected.  The calls of [eval] and [to(bfloat16)] and the load of
    the dataset follow at once. *)
Theorem model_loaded_once (w : World) :
  ∃ load post,
    new_events w (main E args w)
    = dir_events E args w
      ++ load :: ModelEval :: ModelTo "bfloat16" :: LoadData :: post
    ∧ Forall (λ e, ¬ is_model_load e) (dir_events E args w)
    ∧ Forall (λ e, ¬ is_model_load e) post
    ∧ ((∃ p, model_id args = p +:+ ".nemo") →
       load = RestoreFrom (model_id args) (select_device args))
    ∧ (¬ (∃ p, model_id args = p +:+ ".nemo") →
       load = FromPretrained (model_id args) (select_device args)).
Proof.
  exists (load_model_event args).
  exists (subsample_events args
          ++ [PrepareData; SetDecodingStrategy "greedy_batched";
              ChangeDecodingStrategy]
          ++ write_events E args w
          ++ [SortedCall (duration_of ∘ s_audio <$> eval_dataset E args)
                true]
          ++ report_events E args (sorted_data E args)
               (sorted_world E args w)
          ++ (if Qeq_bool (total_time_of E args w) 0 then []
              else result_prints E args (sorted_data E args)
                     (sorted_world E args w))).
  split; [|split; [|split; [|split]]].
  - rewrite main_new_events. unfold run_events, prep_events, setup_events.
    norm_trace. reflexivity.
  - segment.
  - segment.
  - intros H. apply endswith_app in H. unfold load_model_event.
    by rewrite H.
  - intros H. unfold load_model_event.
    destruct (endswith (model_id args) ".nemo") eqn:Hs; [|done].
    apply endswith_app in Hs. contradiction.
Qed.

(** X4. The cache directory is created when nothing exists at its path, and
    only then; [os.makedirs] is called at most once, first of all, and on
    no other path. *)
Theorem makedirs_iff_absent (w : World) :
  ∃ rest,
    Forall (λ e, ¬ is_makedirs e) rest
    ∧ (fs w !! CACHE_DIR E args = None →
       new_events w (main E args w) = Makedirs (CACHE_DIR E args) :: rest)
    ∧ (is_Some (fs w !! CACHE_DIR E args) →
       new_events w (main E args w) = rest).
Proof.
  exists (setup_events args
          ++ write_events E args w
          ++ [SortedCall (duration_of ∘ s_audio <$> eval_dataset E args)
                true]
          ++ report_events E args (sorted_data E args)
               (sorted_world E args w)
          ++ (if Qeq_bool (total_time_of E args w) 0 then []
              else result_prints E args (sorted_data E args)
                     (sorted_world E args w))).
  split; [segment|].
  rewrite main_new_events. unfold run_events, prep_events, dir_events.
  split.
  - intros ->. norm_trace. reflexivity.
  - intros [n ->]. norm_trace. reflexivity.
Qed.

(** X5. Before [transcribe] is called the model has been put in evaluation
    mode and in [bfloat16] and its decoding strategy has been set to
    [greedy_batched] and applied, in this order; no such call comes after
    [transcribe]. *)
Theorem model_set_up_before_inference (w : World) :
  ∃ e1 e2 e3 e4 e5 post,
    new_events w (main E args w)
    = e1 ++ ModelEval :: e2 ++ ModelTo "bfloat16" :: e3
      ++ SetDecodingStrategy "greedy_batched" :: e4
      ++ ChangeDecodingStrategy :: e5
      ++ Transcribe (audio_filepaths (sorted_data E args)) (batch_size args)
         :: post
    ∧ Forall (λ e, ¬ is_model_setup e) (e1 ++ e2 ++ e3 ++ e4 ++ e5 ++ post).
Proof.
  exists (dir_events E args w ++ [load_model_event args]), [].
  exists (LoadData :: subsample_events args ++ [PrepareData]), [].
  exists (write_events E args w
          ++ [SortedCall (duration_of ∘ s_audio <$> eval_dataset E args)
                true;
              Time (start_time_of E (sorted_world E args w));
              AutocastEnter; InferenceModeEnter]).
  exists (drop 4 (report_events E args (sorted_data E args)
                    (sorted_world E args w))
          ++ (if Qeq_bool (total_time_of E args w) 0 then []
              else result_prints E args (sorted_data E args)
                     (sorted_world E args w))).
  split.
  - rewrite main_new_events.
    unfold run_events, prep_events, setup_events, report_events,
      transcribe_call.
    cbn [app drop]. norm_trace. reflexivity.
  - unfold report_events, transcribe_call. cbn [app drop]. segment.
Qed.

End ModelSetup.

Lemma model_loaded_once_witness :
  (∃ p, model_id gpu_args = p +:+ ".nemo")
  ∧ ¬ (∃ p, model_id demo_args = p +:+ ".nemo")
  ∧ RestoreFrom "model.nemo" "cuda:1"
    ∈ new_events demo_world (main demo_env gpu_args demo_world)
  ∧ FromPretrained "nvidia/parakeet-ctc-0.6b" "cpu"
    ∈ new_events demo_world (main demo_env demo_args demo_world).
Proof.
  assert (H1 : ∃ p, model_id gpu_args = p +:+ ".nemo") by (by exists "model").
  assert (H2 : ¬ (∃ p, model_id demo_args = p +:+ ".nemo")).
  { intros H. apply endswith_app in H. by vm_compute in H. }
  split; [exact H1|]. split; [exact H2|]. split.
  - destruct (model_loaded_once demo_env gpu_args demo_world)
      as (load & post & -> & _ & _ & Hyes & _).
    rewrite (Hyes H1). apply elem_of_app. right. by left.
  - destruct (model_loaded_once demo_env demo_args demo_world)
      as (load & post & -> & _ & _ & _ & Hno).
    rewrite (Hno H2). apply elem_of_app. right. by left.
Defined.

Lemma makedirs_iff_absent_witness :
  fs demo_world !! CACHE_DIR demo_env demo_args = None
  ∧ is_Some (fs {| fs := {[ "/work/audio_cache/librispeech" := Dir ]};
                   trace := [] |} !! CACHE_DIR demo_env demo_args)
  ∧ Makedirs "/work/audio_cache/librispeech"
    ∈ new_events demo_world (main demo_env demo_args demo_world)
  ∧ Forall (λ e, ¬ is_makedirs e)
      (new_events {| fs := {[ "/work/audio_cache/librispeech" := Dir ]};
                     trace := [] |}
         (main demo_env demo_args
            {| fs := {[ "/work/audio_cache/librispeech" := Dir ]};
               trace := [] |})).
Proof.
  assert (H1 : fs demo_world !! CACHE_DIR demo_env demo_args = None)
    by reflexivity.
  assert (H2 : is_Some
                 (fs {| fs := {[ "/work/audio_cache/librispeech" := Dir ]};
                        trace := [] |} !! CACHE_DIR demo_env demo_args))
    by (by exists Dir).
  split; [exact H1|]. split; [exact H2|]. split.
  - destruct (makedirs_iff_absent demo_env demo_args demo_world)
      as (rest & _ & Habs & _).
    rewrite (Habs H1). by left.
  - destruct (makedirs_iff_absent demo_env demo_args
                {| fs := {[ "/work/audio_cache/librispeech" := Dir ]};
                   trace := [] |}) as (rest & Hrest & _ & Hpres).
    by rewrite (Hpres H2).
Defined.

(** ** The cache *)

Section CacheFacts.
Context (E : Env) (cache_dir : string).
Implicit Types (w : World) (it : string * Audio)
  (items : list (string * Audio)).

Lemma cache_step_frame w it p :
  p ≠ audio_path_of cache_dir it.1 → fs (cache_step E cache_dir w it) !! p = fs w !! p.
Proof.
  intros Hp. unfold cache_step.
  destruct (fs w !! audio_path_of cache_dir it.1); [done|].
  simpl. by rewrite lookup_insert_ne.
Qed.

Lemma cache_all_frame items w p :
  p ∉ (audio_path_of cache_dir <$> items.*1) → fs (fold_left (cache_step E cache_dir) items w) !! p = fs w !! p.
Proof.
  revert w. induction items as [|it items IH]; intros w Hp; [done|].
  simpl in *. apply not_elem_of_cons in Hp as [Hne Hp].
  rewrite IH by done. by apply cache_step_frame.
Qed.

Lemma cache_step_exists w it :
  is_Some (fs (cache_step E cache_dir w it) !! audio_path_of cache_dir it.1).
Proof.
  unfold cache_step.
  destruct (fs w !! audio_path_of cache_dir it.1) eqn:Hq; [by rewrite Hq|].
  simpl. rewrite lookup_insert_eq. eauto.
Qed.

Lemma cache_all_exists items w :
  Forall (λ p, is_Some (fs (fold_left (cache_step E cache_dir) items w) !! p)) ((audio_path_of cache_dir <$> items.*1)).
Proof.
  revert w. induction items as [|it items IH]; intros w; [constructor|].
  simpl. constructor; [|apply IH].
  destruct (cache_step_exists w it) as [n Hn].
  exists n. by apply cache_all_keeps.
Qed.

Lemma cache_all_warm items w :
  Forall (λ p, is_Some (fs w !! p)) ((audio_path_of cache_dir <$> items.*1)) →
  fold_left (cache_step E cache_dir) items w = w.
Proof.
  revert w. induction items as [|[id a] items IH]; intros w H; [done|].
  simpl in *. apply Forall_cons in H as [Hid H].
  rewrite (cache_step_present E cache_dir w id a Hid). by apply IH.
Qed.

Lemma cache_all_first items1 items2 id a w :
  fs w !! audio_path_of cache_dir id = None →
  audio_path_of cache_dir id ∉ (audio_path_of cache_dir <$> items1.*1) →
  fs (fold_left (cache_step E cache_dir) (items1 ++ (id, a) :: items2) w)
    !! audio_path_of cache_dir id
  = Some (AudioFile (np_float32 E (array a)) 16000).
Proof.
  intros Hnone Hfirst. rewrite fold_left_app. simpl.
  apply cache_all_keeps.
  rewrite cache_step_absent by (by rewrite cache_all_frame).
  simpl. apply lookup_insert_eq.
Qed.

Lemma written_paths_app (l1 l2 : list Event) :
  written_paths (l1 ++ l2) = written_paths l1 ++ written_paths l2.
Proof. apply omap_app. Qed.

Lemma cache_all_writes items w :
  ∃ evs,
    trace (fold_left (cache_step E cache_dir) items w) = trace w ++ evs
    ∧ Forall write_16k evs
    ∧ NoDup (written_paths evs)
    ∧ Forall (λ p, fs w !! p = None ∧ p ∈ (audio_path_of cache_dir <$> items.*1)) (written_paths evs)
    ∧ (length evs ≤ length items)%nat.
Proof.
  revert w. induction items as [|[id a] items IH]; intros w.
  { exists []. simpl. rewrite app_nil_r.
    repeat split; try constructor. }
  simpl. destruct (IH (cache_step E cache_dir w (id, a))) as (evs & Htr & H16 & Hnd & Hin & Hlen).
  destruct (fs w !! audio_path_of cache_dir id) as [n|] eqn:Hp.
  - rewrite cache_step_present in Htr, Hin |- * by eauto.
    exists evs. split; [done|]. split; [done|]. split; [done|].
    split; [|lia].
    eapply Forall_impl; [exact Hin|]. intros p [? ?]. split; [done|].
    by right.
  - rewrite cache_step_absent in Htr |- * by done. simpl in Htr.
    rewrite <- cache_step_absent in Htr |- * by done.
    exists (SoundfileWrite (audio_path_of cache_dir id)
              (np_float32 E (array a)) 16000 :: evs).
    split; [by rewrite Htr, <- (assoc_L (++))|].
    split; [by constructor|].
    assert (Hfresh : Forall (λ p, p ≠ audio_path_of cache_dir id)
                       (written_paths evs)).
    { eapply Forall_impl; [exact Hin|]. intros p [Hnone _] ->.
      destruct (cache_step_exists w (id, a)) as [m Hm]. simpl in Hm.
      congruence. }
    split; [|split; [|simpl; lia]].
    + change (NoDup (audio_path_of cache_dir id :: written_paths evs)).
      constructor; [|done]. rewrite Forall_forall in Hfresh.
      intros Hel. by apply (Hfresh _ Hel).
    + change (Forall (λ p, fs w !! p = None
                           ∧ p ∈ audio_path_of cache_dir id :: (audio_path_of cache_dir <$> items.*1))
                (audio_path_of cache_dir id :: written_paths evs)).
      constructor; [split; [done|by left]|].
      eapply Forall_impl; [exact Hin|]. intros p [Hnone Hel].
      split; [|by right].
      destruct (fs w !! p) as [m|] eqn:Hm; [|done].
      by rewrite (cache_step_keeps E cache_dir w (id, a) p m Hm) in Hnone.
Qed.

(** X6. When a call of [download_audio_files] returns, every node that was
    in the file system before the call is still there, the same: the call
    overwrites and removes nothing.  And something is at every path the call
    returns. *)
Theorem download_keeps_existing_files (batch : Batch) (w w' : World)
    (out : OutBatch) :
  download_audio_files E cache_dir batch w = Ok out w' →
  (∀ p n, fs w !! p = Some n → fs w' !! p = Some n)
  ∧ Forall (λ p, is_Some (fs w' !! p)) (o_audio_filepaths out).
Proof.
  rewrite download_audio_files_run. intros [= <- <-]. simpl. split.
  - intros p n. apply cache_all_keeps.
  - apply cache_all_exists.
Qed.

(** X7. A second call of [download_audio_files] on the same batch, in the
    world the first call left, returns the same batch and does nothing: no
    file is written and the world is unchanged. *)
Theorem download_again_writes_nothing (batch : Batch) (w w' : World)
    (out : OutBatch) :
  download_audio_files E cache_dir batch w = Ok out w' →
  download_audio_files E cache_dir batch w' = Ok out w'.
Proof.
  rewrite download_audio_files_run. intros [= <- <-].
  rewrite download_audio_files_run. f_equal.
  apply cache_all_warm, cache_all_exists.
Qed.

(** X8. Take a batch whose ids are plain file names and a call of
    [download_audio_files] on it that returns.  When nothing exists at the
    path of a sample before the call and no earlier sample of the batch has
    that path, the file at that path after the call holds this sample's
    array, converted to [float32], at 16 kHz, also when later samples of the
    batch have the same path. *)
Theorem first_sample_of_a_path_is_cached (batch : Batch) (w w' : World)
    (out : OutBatch) (i : nat) (id : string) (sample : Audio) :
  let items := zip (b_id batch) (b_audio batch) in
  let audio_path := os_path_join cache_dir (id +:+ ".wav") in
  Forall (λ id', has_slash id' = false) (b_id batch) →
  download_audio_files E cache_dir batch w = Ok out w' →
  items !! i = Some (id, sample) →
  fs w !! audio_path = None →
  (∀ j id' sample', (j < i)%nat → items !! j = Some (id', sample') →
     os_path_join cache_dir (id' +:+ ".wav") ≠ audio_path) →
  fs w' !! audio_path
  = Some (AudioFile (np_float32 E (array sample)) 16000).
Proof.
  intros items audio_path _ Hrun Hi Hnone Hfirst.
  rewrite download_audio_files_run in Hrun. injection Hrun as _ <-.
  fold items. rewrite <- (take_drop_middle items i (id, sample) Hi).
  apply cache_all_first; [done|].
  intros Hel. apply list_elem_of_fmap in Hel as (id' & Heq & Hel).
  apply list_elem_of_fmap in Hel as ([id'' a'] & -> & Hel).
  apply list_elem_of_lookup in Hel as (j & Hj).
  apply lookup_take_Some in Hj as [Hj Hlt].
  by apply (Hfirst j id'' a' Hlt Hj).
Qed.

(** X9. In one call of [download_audio_files] no path is written twice;
    every path written did not exist before the call and is one of the
    returned paths; there are at most as many writes as samples, and the
    call adds nothing but writes to the trace. *)
Theorem download_writes_each_path_once (batch : Batch) (w : World) :
  ∃ out w' evs,
    download_audio_files E cache_dir batch w = Ok out w'
    ∧ trace w' = trace w ++ evs
    ∧ Forall write_16k evs
    ∧ NoDup (written_paths evs)
    ∧ Forall (λ p, fs w !! p = None ∧ p ∈ o_audio_filepaths out)
        (written_paths evs)
    ∧ (length evs ≤ length (o_audio_filepaths out))%nat.
Proof.
  destruct (cache_all_writes (zip (b_id batch) (b_audio batch)) w)
    as (evs & Htr & H16 & Hnd & Hin & Hlen).
  eexists _, _, evs. split; [apply download_audio_files_run|]. simpl.
  rewrite !length_fmap. done.
Qed.

End CacheFacts.

Lemma download_again_writes_nothing_witness :
  ∃ out w',
    download_audio_files demo_env "/c" repeat_batch demo_world = Ok out w'
    ∧ download_audio_files demo_env "/c" repeat_batch w' = Ok out w'.
Proof.
  eexists _, _. split; [apply download_audio_files_run|].
  apply (download_again_writes_nothing demo_env "/c" repeat_batch demo_world).
  apply download_audio_files_run.
Defined.

Lemma download_keeps_existing_files_witness :
  ∃ out w',
    download_audio_files demo_env "/c" demo_batch
      {| fs := {[ "/c/a.wav" := AudioFile [7]%Q 8000 ]}; trace := [] |}
    = Ok out w'
    ∧ fs w' !! "/c/a.wav" = Some (AudioFile [7]%Q 8000)
    ∧ Forall (λ p, is_Some (fs w' !! p)) (o_audio_filepaths out).
Proof.
  eexists _, _. split; [apply download_audio_files_run|].
  destruct (download_keeps_existing_files demo_env "/c" demo_batch
              {| fs := {[ "/c/a.wav" := AudioFile [7]%Q 8000 ]};
                 trace := [] |} _ _
              (download_audio_files_run demo_env "/c" demo_batch _))
    as [Hkeep Hexists].
  split; [|exact Hexists].
  apply Hkeep. reflexivity.
Defined.

Lemma first_sample_of_a_path_is_cached_witness :
  Forall (λ id', has_slash id' = false) (b_id repeat_batch)
  ∧ zip (b_id repeat_batch) (b_audio repeat_batch) !! 1%nat
    = Some ("a", {| array := [1; 2]%Q; sampling_rate := 16000 |})
  ∧ fs demo_world !! "/c/a.wav" = None
  ∧ ∃ out w',
    download_audio_files demo_env "/c" repeat_batch demo_world = Ok out w'
    ∧ fs w' !! "/c/a.wav" = Some (AudioFile [1; 2]%Q 16000).
Proof.
  assert (Hplain : Forall (λ id', has_slash id' = false) (b_id repeat_batch))
    by (repeat constructor).
  split; [exact Hplain|]. split; [reflexivity|]. split; [reflexivity|].
  eexists _, _. split; [apply download_audio_files_run|].
  apply (first_sample_of_a_path_is_cached demo_env "/c" repeat_batch
           demo_world _ _ 1 "a"
           {| array := [1; 2]%Q; sampling_rate := 16000 |} Hplain
           (download_audio_files_run demo_env "/c" repeat_batch demo_world)).
  - reflexivity.
  - reflexivity.
  - intros j id' sample' Hj Hl. destruct j as [|j]; [|lia].
    injection Hl as <- _. vm_compute. discriminate.
Defined.

(** ** The files at the time of inference *)

Lemma written_paths_none (l : list Event) :
  Forall (λ e, ¬ is_soundfile_write e) l → written_paths l = [].
Proof.
  induction 1 as [|e l He _ IH]; [done|].
  unfold written_paths in *. destruct e; simpl in *; tauto.
Qed.

Section FilesAtInference.
Context (E : Env) (args : Args).

(** X10. When lines 22 to 95 have run and returned, [transcribe] is called
    in the world they leave, and in that world something exists at every
    path it is given. *)
Theorem transcribed_paths_exist (w w' : World) (all_data : AllData) :
  load_and_sort E args w = Ok all_data w' →
  main E args w = score_and_report E args all_data w'
  ∧ Transcribe (audio_filepaths all_data) (batch_size args)
    ∈ new_events w' (score_and_report E args all_data w')
  ∧ Forall (λ p, is_Some (fs w' !! p)) (audio_filepaths all_data).
Proof.
  rewrite load_and_sort_run. intros [= <- <-].
  split; [apply main_run|]. split.
  - unfold new_events. rewrite score_and_report_run.
    destruct (Qeq_bool _ 0); cbn [trace_of trace];
      rewrite drop_app_length; unfold report_events, transcribe_call;
      find_event.
  - unfold sorted_data, sorted_world, cached_world. cbn [audio_filepaths fs].
    rewrite (sort_samples_perm (eval_dataset E args)).
    pose proof (cache_all_exists E (CACHE_DIR E args)
                  (item_of <$> eval_dataset E args) (setup_world E args w))
      as H.
    by rewrite <- !list_fmap_compose in H.
Qed.

Lemma run_written_paths (w : World) :
  written_paths (run_events E args w) = written_paths (write_events E args w).
Proof.
  unfold run_events, prep_events. rewrite !written_paths_app.
  rewrite (written_paths_none (dir_events E args w)) by segment.
  rewrite (written_paths_none (setup_events args)) by segment.
  rewrite (written_paths_none (report_events _ _ _ _)) by segment.
  rewrite (written_paths_none (if Qeq_bool _ 0 then _ else _)) by segment.
  cbn [written_paths omap app]. by rewrite !app_nil_r.
Qed.

(** X11. In a whole run [soundfile.write] is never called on a path at which
    something exists once line 27 is passed: the paths a run writes audio to
    are cache paths of evaluated samples, pairwise distinct, and nothing was
    at any of them in the file system the run started from (or, when the
    cache directory had to be created, in the one [os.makedirs] left). *)
Theorem run_writes_only_absent_paths (w : World) :
  NoDup (written_paths (new_events w (main E args w)))
  ∧ Forall (λ p, ∃ s, s ∈ eval_dataset E args
                      ∧ p = os_path_join (CACHE_DIR E args)
                              (s_id s +:+ ".wav"))
      (written_paths (new_events w (main E args w)))
  ∧ (is_Some (fs w !! CACHE_DIR E args) →
     Forall (λ p, fs w !! p = None)
       (written_paths (new_events w (main E args w))))
  ∧ (fs w !! CACHE_DIR E args = None →
     Forall (λ p, makedirs E (fs w) (CACHE_DIR E args) !! p = None)
       (written_paths (new_events w (main E args w)))).
Proof.
  rewrite main_new_events, run_written_paths.
  unfold write_events, cached_world.
  destruct (cache_all_writes E (CACHE_DIR E args)
              (item_of <$> eval_dataset E args) (setup_world E args w))
    as (evs & -> & _ & Hnd & Hin & _).
  rewrite drop_app_length.
  split; [done|]. split; [|split].
  - eapply Forall_impl; [exact Hin|]. intros p [_ Hel].
    apply list_elem_of_fmap in Hel as (id & -> & Hel).
    apply list_elem_of_fmap in Hel as ([id' a] & -> & Hel).
    apply list_elem_of_fmap in Hel as (s & [= -> ->] & Hel).
    by exists s.
  - intros [d Hd]. eapply Forall_impl; [exact Hin|]. intros p [Hnone _].
    revert Hnone. unfold setup_world, made_dirs. cbn [fs]. by rewrite Hd.
  - intros Hd. eapply Forall_impl; [exact Hin|]. intros p [Hnone _].
    revert Hnone. unfold setup_world, made_dirs. cbn [fs]. by rewrite Hd.
Qed.

End FilesAtInference.

Lemma transcribed_paths_exist_witness :
  ∃ all_data w',
    load_and_sort demo_env demo_args demo_world = Ok all_data w'
    ∧ audio_filepaths all_data
      = ["/work/audio_cache/librispeech/b.wav";
         "/work/audio_cache/librispeech/a.wav";
         "/work/audio_cache/librispeech/c.wav"]
    ∧ Forall (λ p, is_Some (fs w' !! p)) (audio_filepaths all_data).
Proof.
  eexists _, _. split; [apply load_and_sort_run|].
  split; [vm_compute; reflexivity|].
  apply (transcribed_paths_exist demo_env demo_args demo_world _ _
           (load_and_sort_run demo_env demo_args demo_world)).
Defined.

Lemma run_writes_only_absent_paths_witness :
  (is_Some (fs {| fs := {[ "/work/audio_cache/librispeech" := Dir;
                           "/work/audio_cache/librispeech/a.wav"
                             := AudioFile [7]%Q 8000 ]};
                  trace := [] |} !! CACHE_DIR demo_env demo_args)
   ∧ written_paths
       (new_events
          {| fs := {[ "/work/audio_cache/librispeech" := Dir;
                      "/work/audio_cache/librispeech/a.wav"
                        := AudioFile [7]%Q 8000 ]};
             trace := [] |}
          (main demo_env demo_args
             {| fs := {[ "/work/audio_cache/librispeech" := Dir;
                         "/work/audio_cache/librispeech/a.wav"
                           := AudioFile [7]%Q 8000 ]};
                trace := [] |}))
     = ["/work/audio_cache/librispeech/b.wav";
        "/work/audio_cache/librispeech/c.wav"]
   ∧ Forall (λ p, ({[ "/work/audio_cache/librispeech" := Dir;
                      "/work/audio_cache/librispeech/a.wav"
                        := AudioFile [7]%Q 8000 ]} : gmap string Node) !! p
                  = None)
       (written_paths
          (new_events
             {| fs := {[ "/work/audio_cache/librispeech" := Dir;
                         "/work/audio_cache/librispeech/a.wav"
                           := AudioFile [7]%Q 8000 ]};
                trace := [] |}
             (main demo_env demo_args
                {| fs := {[ "/work/audio_cache/librispeech" := Dir;
                            "/work/audio_cache/librispeech/a.wav"
                              := AudioFile [7]%Q 8000 ]};
                   trace := [] |}))))
  ∧ (fs demo_world !! CACHE_DIR demo_env demo_args = None
     ∧ Forall (λ p, makedirs demo_env (fs demo_world)
                      (CACHE_DIR demo_env demo_args) !! p = None)
         (written_paths
            (new_events demo_world (main demo_env demo_args demo_world)))).
Proof.
  assert (H1 : is_Some
            (fs {| fs := {[ "/work/audio_cache/librispeech" := Dir;
                            "/work/audio_cache/librispeech/a.wav"
                              := AudioFile [7]%Q 8000 ]};
                   trace := [] |} !! CACHE_DIR demo_env demo_args))
    by (by exists Dir).
  split.
  - split; [exact H1|]. split; [vm_compute; reflexivity|].
    exact (proj1 (proj2 (proj2
             (run_writes_only_absent_paths demo_env demo_args _))) H1).
  - split; [reflexivity|].
    exact (proj2 (proj2 (proj2
             (run_writes_only_absent_paths demo_env demo_args demo_world)))
             eq_refl).
Defined.

(** ** Batches, ties and the end of a run *)

Section Batches.
Context (E : Env) (cache_dir : string).

(** X12. The mapped dataset does not depend on the batch size, be it zero,
    negative or larger than the dataset: whatever the size, there is one
    row per sample, in the order of the dataset, with the sample's id, its
    [norm_text] as reference, its cache path and its duration, and the
    world after the map is the same. *)
Theorem mapped_dataset_ignores_batch_size (ds : list Sample) (w : World) :
  ∃ rows w',
    (∀ bs, dataset_map (download_audio_files E cache_dir) bs ds w
           = Ok rows w')
    ∧ Forall2 (λ s r, r_id r = s_id s
                      ∧ r_references r = s_norm_text s
                      ∧ r_audio_filepaths r
                        = os_path_join cache_dir (s_id s +:+ ".wav")
                      ∧ r_durations r
                        = Z.of_nat (length (array (s_audio s))) # 16000)
        ds rows.
Proof.
  eexists _, _. split; [intros bs; apply dataset_map_run|].
  apply Forall2_fmap_r, Forall_Forall2_diag, Forall_true. done.
Qed.

End Batches.

Section EndOfRun.
Context (E : Env) (args : Args).

(** X13. Samples of one and the same duration are transcribed in the order
    they have in the dataset: the sort moves no sample past another of the
    same duration. *)
Theorem equal_durations_keep_dataset_order (w : World) :
  ∃ ss all_data w',
    load_and_sort E args w = Ok all_data w'
    ∧ audio_filepaths all_data
      = (λ s, os_path_join (CACHE_DIR E args) (s_id s +:+ ".wav")) <$> ss
    ∧ references all_data = s_norm_text <$> ss
    ∧ ss ≡ₚ eval_dataset E args
    ∧ ∀ d, filter (λ s, Qeq_bool (duration_of (s_audio s)) d = true) ss
           = filter (λ s, Qeq_bool (duration_of (s_audio s)) d = true)
               (eval_dataset E args).
Proof.
  exists (sort_samples (eval_dataset E args)), (sorted_data E args),
    (sorted_world E args w).
  split; [apply load_and_sort_run|]. split; [done|]. split; [done|].
  split; [apply sort_samples_perm|]. intros d. apply sort_samples_stable.
Qed.

(** X14. A run ends in one of two ways.  When the two readings of the clock
    differ it ends normally.  When they are equal the division of line 128
    raises [ZeroDivisionError]: by then the manifest has been written and
    the WER computed, and no result has been printed.  No other exception
    is raised by the script itself. *)
Theorem run_ends_or_divides_by_zero (w : World) :
  ∃ all_data w' start_time end_time,
    load_and_sort E args w = Ok all_data w'
    ∧ start_time = clock E (trace w')
    ∧ end_time
      = clock E (trace w' ++ Time start_time
                             :: transcribe_call args all_data)
    ∧ (¬ (end_time - start_time == 0)%Q →
       main E args w = Ok tt (world_of (main E args w)))
    ∧ ((end_time - start_time == 0)%Q →
       main E args w = Raise ZeroDivisionError (world_of (main E args w))
       ∧ Exists is_write_manifest (new_events w (main E args w))
       ∧ Exists is_wer_compute (new_events w (main E args w))
       ∧ Forall (λ e, ¬ is_result_print e) (new_events w (main E args w))).
Proof.
  exists (sorted_data E args), (sorted_world E args w).
  exists (start_time_of E (sorted_world E args w)),
    (end_time_of E args (sorted_data E args) (sorted_world E args w)).
  split; [apply load_and_sort_run|]. split; [done|]. split; [done|].
  fold (total_time_of E args w). split.
  - intros Hnz. rewrite main_outcome at 1.
    destruct (Qeq_bool (total_time_of E args w) 0) eqn:Hz.
    + apply Qeq_bool_iff in Hz. contradiction.
    + rewrite main_outcome. rewrite Hz. cbn [world_of]. reflexivity.
  - intros Hz. apply Qeq_bool_iff in Hz.
    split; [|split; [|split]].
    + rewrite main_outcome at 1. rewrite Hz.
      rewrite main_outcome. rewrite Hz. cbn [world_of]. reflexivity.
    + rewrite main_new_events. unfold run_events, report_events.
      apply Exists_exists. eexists (WriteManifest _ _ _ _ _ _ _).
      split; [|done]. unfold transcribe_call. find_event.
    + rewrite main_new_events. unfold run_events, report_events.
      apply Exists_exists. eexists (WerCompute _ _).
      split; [|done]. unfold transcribe_call. find_event.
    + rewrite main_new_events. unfold run_events. rewrite Hz.
      cbv iota. rewrite app_nil_r. segment.
Qed.

End EndOfRun.

Lemma run_ends_or_divides_by_zero_witness :
  main demo_env demo_args demo_world
    = Ok tt (world_of (main demo_env demo_args demo_world))
  ∧ main frozen_env demo_args demo_world
    = Raise ZeroDivisionError
        (world_of (main frozen_env demo_args demo_world))
  ∧ Exists is_write_manifest
      (new_events demo_world (main frozen_env demo_args demo_world))
  ∧ Forall (λ e, ¬ is_result_print e)
      (new_events demo_world (main frozen_env demo_args demo_world)).
Proof.
  split.
  - destruct (run_ends_or_divides_by_zero demo_env demo_args demo_world)
      as (ad & w' & t0 & t1 & Hrun & -> & -> & Hok & _).
    apply Hok. rewrite load_and_sort_run in Hrun. injection Hrun as <- <-.
    vm_compute. intros H. discriminate H.
  - destruct (run_ends_or_divides_by_zero frozen_env demo_args demo_world)
      as (ad & w' & t0 & t1 & Hrun & -> & -> & _ & Hzero).
    destruct Hzero as (H1 & H2 & _ & H4); [vm_compute; reflexivity|].
    exact (conj H1 (conj H2 H4)).
Defined.

(** ** The empty dataset *)

Lemma round2_zero (x : Q) : (x == 0)%Q → round2 x = 0 # 100.
Proof.
  intros Hx. unfold round2, round_half_even.
  assert (H100 : (x * 100 == 0)%Q) by (rewrite Hx; reflexivity).
  rewrite (Qfloor_comp _ _ H100). change (Qfloor 0) with 0%Z.
  rewrite H100. reflexivity.
Qed.

Section EmptyDataset.
Context (E : Env) (args : Args).

Lemma write_events_empty (w : World) :
  eval_dataset E args = [] → write_events E args w = [].
Proof.
  intros Hds. unfold write_events, cached_world. rewrite Hds. simpl.
  apply drop_all.
Qed.

(** X15. When the dataset, subsampled and prepared, is empty, the run
    writes no audio file, calls [transcribe] once on the empty list and
    hands the manifest writer an empty list of references and an empty list
    of durations; if it ends normally the RTFX it prints is zero. *)
Theorem empty_dataset_run (w w_end : World) :
  eval_dataset E args = [] →
  ∃ predictions,
    written_paths (new_events w (main E args w)) = []
    ∧ Transcribe [] (batch_size args) ∈ new_events w (main E args w)
    ∧ WriteManifest [] predictions (model_id args) (dataset_path args)
        (dataset args) (split args) []
      ∈ new_events w (main E args w)
    ∧ (main E args w = Ok tt w_end →
       Print [PStr "RTFX:"; PNum (0 # 100)] ∈ new_events w (main E args w)).
Proof.
  intros Hds.
  assert (Had : sorted_data E args
                = {| audio_filepaths := []; durations := [];
                     references := [] |}).
  { unfold sorted_data. by rewrite Hds. }
  exists (predictions_of E args (sorted_data E args) (sorted_world E args w)).
  rewrite main_new_events.
  split; [|split; [|split]].
  - apply written_paths_none. unfold run_events, prep_events.
    rewrite (write_events_empty w Hds). segment.
  - unfold run_events, report_events, transcribe_call. rewrite Had.
    cbn [audio_filepaths]. find_event.
  - unfold run_events, report_events, transcribe_call.
    replace (references (sorted_data E args)) with (@nil string)
      by (by rewrite Had).
    replace (durations (sorted_data E args)) with (@nil Q)
      by (by rewrite Had).
    find_event.
  - intros Hok. rewrite main_outcome in Hok.
    unfold run_events.
    destruct (Qeq_bool (total_time_of E args w) 0); [done|].
    unfold result_prints, rtfx_of.
    replace (durations (sorted_data E args)) with (@nil Q)
      by (by rewrite Had).
    match goal with
    | |- context [round2 (py_sum [] / ?t)] =>
        rewrite (round2_zero (py_sum [] / t)) by apply Qmult_0_l
    end.
    find_event.
Qed.

End EmptyDataset.

Lemma empty_dataset_run_witness :
  eval_dataset empty_env demo_args = []
  ∧ main empty_env demo_args demo_world
    = Ok tt (world_of (main empty_env demo_args demo_world))
  ∧ written_paths (new_events demo_world (main empty_env demo_args demo_world))
    = []
  ∧ Transcribe [] 2
    ∈ new_events demo_world (main empty_env demo_args demo_world)
  ∧ Print [PStr "RTFX:"; PNum (0 # 100)]
    ∈ new_events demo_world (main empty_env demo_args demo_world).
Proof.
  assert (H0 : eval_dataset empty_env demo_args = []) by reflexivity.
  assert (H1 : main empty_env demo_args demo_world
               = Ok tt (world_of (main empty_env demo_args demo_world)))
    by (vm_compute; reflexivity).
  destruct (empty_dataset_run empty_env demo_args demo_world
              (world_of (main empty_env demo_args demo_world)) H0)
    as (preds & Hw & Ht & _ & Hp).
  exact (conj H0 (conj H1 (conj Hw (conj Ht (Hp H1))))).
Defined.

(** ** The bounds of the sort *)

Lemma bind_raise {A B} (m : M A) (f : A → M B) (w w' : World) (e : Exn) :
  m w = Raise e w' → (m ≫= f) w = Raise e w'.
Proof. intros H. by rewrite bind_run, H. Qed.

Lemma comprehension_subscript_cases {A} (l : list A) (idx : list nat) w :
  (comprehension (subscript l) idx w = Raise IndexError w
   ∧ Exists (λ i, l !! i = None) idx)
  ∨ (∃ r, comprehension (subscript l) idx w = Ok r w
          ∧ Forall2 (λ i x, l !! i = Some x) idx r).
Proof.
  induction idx as [|i idx IH].
  - right. exists []. split; [done|constructor].
  - rewrite comprehension_cons. unfold subscript at 1 3.
    destruct (l !! i) as [x|] eqn:Hi.
    + rewrite ret_run. destruct IH as [[-> Hex]|(r & -> & Hr)].
      * left. split; [done|]. by right.
      * right. exists (x :: r). split; [done|]. by constructor.
    + left. split; [done|]. by left.
Qed.

Lemma Forall2_zip_swap {A B} (P : A → B → Prop) (l : list A) (k : list B) :
  Forall2 P l k → Forall (λ p, P p.2 p.1) (zip k l).
Proof. induction 1; simpl; by constructor. Qed.

Lemma Forall_keyed_fst_snd (P : nat → Q → Prop) (kl : list (Q * nat)) :
  Forall (λ p, P p.2 p.1) kl → Forall2 P (kl.*2) (kl.*1).
Proof. induction 1; simpl; by constructor. Qed.

Lemma Forall2_lookup_functional {A} (l : list A) (idx : list nat)
    (r1 r2 : list A) :
  Forall2 (λ i x, l !! i = Some x) idx r1 →
  Forall2 (λ i x, l !! i = Some x) idx r2 → r1 = r2.
Proof.
  intros H1. revert r2. induction H1 as [|i x idx r1 Hi _ IH];
    intros r2 H2; inversion H2; subst; [done|].
  f_equal; [congruence|by apply IH].
Qed.

(** X17. The sort of lines 92 to 95 follows the list of durations.  When
    the lists of paths and of references are at least as long, the three
    lists are gathered by one permutation of the indices of the durations,
    anything beyond that length is dropped, and the durations come out in
    non-increasing order.  When the list of paths or of references is
    shorter than the list of durations, [IndexError] is raised, after the
    indices have been sorted. *)
Theorem sort_by_duration_bounds (all_data : AllData) (w : World) :
  let n := length (durations all_data) in
  let w' := {| fs := fs w;
               trace := trace w ++ [SortedCall (durations all_data) true] |} in
  ((n ≤ length (audio_filepaths all_data))%nat →
   (n ≤ length (references all_data))%nat →
   ∃ sorted_indices sorted,
     sort_by_duration all_data w = Ok sorted w'
     ∧ sorted_indices ≡ₚ seq 0 n
     ∧ Forall2 (λ i p, audio_filepaths all_data !! i = Some p)
         sorted_indices (audio_filepaths sorted)
     ∧ Forall2 (λ i r, references all_data !! i = Some r)
         sorted_indices (references sorted)
     ∧ Forall2 (λ i d, durations all_data !! i = Some d)
         sorted_indices (durations sorted)
     ∧ StronglySorted (λ a b : Q, (b <= a)%Q) (durations sorted))
  ∧ ((length (audio_filepaths all_data) < n)%nat
     ∨ (length (references all_data) < n)%nat →
     sort_by_duration all_data w = Raise IndexError w').
Proof.
  intros n w'.
  set (skl := sort_decorated true
                (zip (durations all_data) (seq 0 n))).
  assert (Hperm : skl.*2 ≡ₚ seq 0 n).
  { unfold skl. rewrite sort_decorated_perm, snd_zip; [done|].
    rewrite length_seq. done. }
  assert (Hdur : Forall2 (λ i d, durations all_data !! i = Some d)
                   (skl.*2) (skl.*1)).
  { apply (Forall_keyed_fst_snd
             (λ i d, durations all_data !! i = Some d)).
    unfold skl. rewrite sort_decorated_perm.
    apply (Forall2_zip_swap (λ i d, durations all_data !! i = Some d)).
    apply Forall2_range_lookup. }
  assert (Hsorted : sorted (seq 0 n)
                      (λ k, subscript (durations all_data) k) true w
                    = Ok (skl.*2) w') by apply sorted_range_run.
  assert (Hbad : ∀ {A} (l : list A), (length l < n)%nat →
            ¬ ∃ r, Forall2 (λ i x, l !! i = Some x) (skl.*2) r).
  { intros A l Hlt [r Hr].
    assert (Hin : length l ∈ skl.*2).
    { rewrite Hperm. apply elem_of_seq. lia. }
    apply list_elem_of_lookup in Hin as [j Hj].
    destruct (Forall2_lookup_l _ _ _ _ _ Hr Hj) as (x & _ & Hx).
    apply lookup_lt_Some in Hx. lia. }
  assert (Hgood : ∀ {A} (l : list A), (n ≤ length l)%nat →
            ∃ r, comprehension (subscript l) (skl.*2) w' = Ok r w'
                 ∧ Forall2 (λ i x, l !! i = Some x) (skl.*2) r).
  { intros A l Hle.
    destruct (comprehension_subscript_cases l (skl.*2) w')
      as [[_ Hex]|H]; [|done].
    apply Exists_exists in Hex as (i & Hi & Hnone).
    rewrite Hperm in Hi. apply elem_of_seq in Hi.
    apply lookup_ge_None in Hnone. lia. }
  unfold sort_by_duration. fold n. split.
  - intros Hp Hr.
    destruct (Hgood _ _ Hp) as (ps & Hps & HpsF).
    destruct (Hgood _ _ Hr) as (rs & Hrs & HrsF).
    destruct (Hgood _ (durations all_data) (le_n n)) as (ds & Hds & HdsF).
    exists (skl.*2),
      {| audio_filepaths := ps; durations := ds; references := rs |}.
    split.
    { by rewrite (bind_ok _ _ _ _ _ Hsorted), (bind_ok _ _ _ _ _ Hps),
        (bind_ok _ _ _ _ _ Hrs), (bind_ok _ _ _ _ _ Hds). }
    cbn [audio_filepaths durations references].
    split; [done|]. split; [done|]. split; [done|]. split; [done|].
    rewrite (Forall2_lookup_functional _ _ _ _ HdsF Hdur).
    eapply StronglySorted_fmap; [|apply sort_decorated_descending]. done.
  - intros Hshort. rewrite (bind_ok _ _ _ _ _ Hsorted).
    destruct (comprehension_subscript_cases (audio_filepaths all_data)
                (skl.*2) w') as [[Hps _]|(ps & Hps & HpsF)].
    { by rewrite (bind_raise _ _ _ _ _ Hps). }
    rewrite (bind_ok _ _ _ _ _ Hps).
    destruct (comprehension_subscript_cases (references all_data)
                (skl.*2) w') as [[Hrs _]|(rs & Hrs & HrsF)].
    { by rewrite (bind_raise _ _ _ _ _ Hrs). }
    destruct Hshort as [Hlt|Hlt].
    + destruct (Hbad _ _ Hlt). eauto.
    + destruct (Hbad _ _ Hlt). eauto.
Qed.

Lemma sort_by_duration_bounds_witness :
  (sort_by_duration
     {| audio_filepaths := ["x"; "y"; "z"]; durations := [1; 2]%Q;
        references := ["r"; "s"] |} demo_world
   = Ok {| audio_filepaths := ["y"; "x"]; durations := [2; 1]%Q;
           references := ["s"; "r"] |}
        {| fs := ∅; trace := [SortedCall [1; 2]%Q true] |})
  ∧ (sort_by_duration
       {| audio_filepaths := ["x"]; durations := [1; 2]%Q;
          references := ["r"; "s"] |} demo_world
     = Raise IndexError {| fs := ∅; trace := [SortedCall [1; 2]%Q true] |}).
Proof.
  split.
  - destruct (proj1 (sort_by_duration_bounds
                       {| audio_filepaths := ["x"; "y"; "z"];
                          durations := [1; 2]%Q;
                          references := ["r"; "s"] |} demo_world))
      as (idx & ad & Hrun & _); [simpl; lia..|].
    rewrite Hrun. vm_compute in Hrun. injection Hrun as <-. reflexivity.
  - apply (proj2 (sort_by_duration_bounds
                    {| audio_filepaths := ["x"]; durations := [1; 2]%Q;
                       references := ["r"; "s"] |} demo_world)).
    left. simpl. lia.
Defined.

(** ** The command line *)

Lemma store_model_id_none (opts : list CliOption) (ns : Namespace) :
  ns_model_id (fold_left store opts ns) = None
  ↔ ns_model_id ns = None ∧ Forall (λ o, ¬ is_opt_model_id o) opts.
Proof.
  revert ns. induction opts as [|o opts IH]; intros ns; simpl.
  - split; [by split|by intros [? _]].
  - rewrite IH, Forall_cons. destruct o; simpl; intuition congruence.
Qed.

Lemma store_dataset_none (opts : list CliOption) (ns : Namespace) :
  ns_dataset (fold_left store opts ns) = None
  ↔ ns_dataset ns = None ∧ Forall (λ o, ¬ is_opt_dataset o) opts.
Proof.
  revert ns. induction opts as [|o opts IH]; intros ns; simpl.
  - split; [by split|by intros [? _]].
  - rewrite IH, Forall_cons. destruct o; simpl; intuition congruence.
Qed.

Lemma store_keeps_device (opts : list CliOption) (ns : Namespace) :
  Forall (λ o, ¬ is_opt_device o) opts →
  ns_device (fold_left store opts ns) = ns_device ns.
Proof.
  intros H. revert ns. induction H as [|o opts Ho _ IH]; intros ns; [done|].
  simpl. rewrite IH. by destruct o.
Qed.

Lemma store_keeps_batch_size (opts : list CliOption) (ns : Namespace) :
  Forall (λ o, ¬ is_opt_batch_size o) opts →
  ns_batch_size (fold_left store opts ns) = ns_batch_size ns.
Proof.
  intros H. revert ns. induction H as [|o opts Ho _ IH]; intros ns; [done|].
  simpl. rewrite IH. by destruct o.
Qed.

Lemma store_keeps_max_eval_samples (opts : list CliOption) (ns : Namespace) :
  Forall (λ o, ¬ is_opt_max_eval_samples o) opts →
  ns_max_eval_samples (fold_left store opts ns) = ns_max_eval_samples ns.
Proof.
  intros H. revert ns. induction H as [|o opts Ho _ IH]; intros ns; [done|].
  simpl. rewrite IH. by destruct o.
Qed.

Lemma parse_args_fields (opts : list CliOption) (args : Args) :
  parse_args opts = Some args →
  device args = ns_device (fold_left store opts defaults)
  ∧ batch_size args = ns_batch_size (fold_left store opts defaults)
  ∧ max_eval_samples args
    = ns_max_eval_samples (fold_left store opts defaults).
Proof.
  unfold parse_args.
  destruct (ns_model_id (fold_left store opts defaults)),
    (ns_dataset (fold_left store opts defaults)); intros [= <-]; done.
Qed.

Section CommandLine.
Context (E : Env).

(** X18. Nothing runs without [--model_id] or without [--dataset]: the
    script reaches [main] exactly when both options are given. *)
Theorem script_needs_model_and_dataset (opts : list CliOption) (w : World) :
  script E opts w = None
  ↔ Forall (λ o, ¬ is_opt_model_id o) opts
    ∨ Forall (λ o, ¬ is_opt_dataset o) opts.
Proof.
  unfold script, parse_args.
  pose proof (store_model_id_none opts defaults) as Hm.
  pose proof (store_dataset_none opts defaults) as Hd.
  destruct (ns_model_id (fold_left store opts defaults)) as [m|];
    destruct (ns_dataset (fold_left store opts defaults)) as [d|].
  - split; [done|]. intros [H|H].
    + discriminate (proj2 Hm (conj eq_refl H)).
    + discriminate (proj2 Hd (conj eq_refl H)).
  - split; [|done]. intros _. right. by apply Hd.
  - split; [|done]. intros _. left. by apply Hm.
  - split; [|done]. intros _. left. by apply Hm.
Qed.

(** X19. What the command line leaves out falls back on the defaults, and
    the run shows it: without [--device] the model is loaded on the CPU,
    without [--batch_size] [transcribe] is called with a batch size of 32,
    without [--max_eval_samples] the dataset is never cut. *)
Theorem omitted_options_use_defaults (opts : list CliOption) (args : Args)
    (w : World) :
  parse_args opts = Some args →
  (Forall (λ o, ¬ is_opt_device o) opts →
   select_device args = "cpu"
   ∧ (RestoreFrom (model_id args) "cpu" ∈ new_events w (main E args w)
      ∨ FromPretrained (model_id args) "cpu"
        ∈ new_events w (main E args w)))
  ∧ (Forall (λ o, ¬ is_opt_batch_size o) opts →
     Transcribe (audio_filepaths (sorted_data E args)) 32
     ∈ new_events w (main E args w))
  ∧ (Forall (λ o, ¬ is_opt_max_eval_samples o) opts →
     Forall (λ e, ¬ is_take e) (new_events w (main E args w))).
Proof.
  intros Hparse.
  destruct (parse_args_fields opts args Hparse) as (Hdev & Hbs & Hmax).
  split; [|split].
  - intros H. rewrite store_keeps_device in Hdev by done.
    assert (Hsel : select_device args = "cpu").
    { unfold select_device. by rewrite Hdev. }
    split; [done|]. rewrite <- Hsel, main_new_events.
    unfold run_events, prep_events, setup_events, load_model_event.
    destruct (endswith (model_id args) ".nemo"); [left|right]; find_event.
  - intros H. rewrite store_keeps_batch_size in Hbs by done.
    change (ns_batch_size defaults) with 32 in Hbs. rewrite <- Hbs.
    rewrite main_new_events.
    unfold run_events, report_events, transcribe_call. find_event.
  - intros H. rewrite store_keeps_max_eval_samples in Hmax by done.
    change (ns_max_eval_samples defaults) with (@None Z) in Hmax.
    rewrite main_new_events. apply Forall_forall. intros e He Htake.
    destruct e; try done.
    apply take_in_run in He. unfold subsample_events in He.
    rewrite Hmax in He. by apply elem_of_nil in He.
Qed.

End CommandLine.

Lemma script_needs_model_and_dataset_witness :
  script demo_env [OptDataset "librispeech"; OptDevice 0] demo_world = None
  ∧ script demo_env [OptModelId "m"; OptDataset "librispeech"] demo_world
    ≠ None.
Proof.
  split.
  - apply (script_needs_model_and_dataset demo_env
             [OptDataset "librispeech"; OptDevice 0] demo_world).
    left. repeat constructor; simpl; tauto.
  - intros H.
    apply (script_needs_model_and_dataset demo_env
             [OptModelId "m"; OptDataset "librispeech"] demo_world) in H.
    destruct H as [H|H].
    + by apply Forall_cons in H as [H _].
    + by apply Forall_cons in H as [_ [H _]%Forall_cons].
Defined.

Lemma omitted_options_use_defaults_witness :
  parse_args [OptModelId "m"; OptDataset "librispeech"]
  = Some {| model_id := "m"; dataset_path := "esb/datasets";
            dataset := "librispeech"; split := "test"; device := -1;
            batch_size := 32; max_eval_samples := None;
            streaming := true |}
  ∧ select_device
      {| model_id := "m"; dataset_path := "esb/datasets";
         dataset := "librispeech"; split := "test"; device := -1;
         batch_size := 32; max_eval_samples := None; streaming := true |}
    = "cpu"
  ∧ Forall (λ e, ¬ is_take e)
      (new_events demo_world
         (main demo_env
            {| model_id := "m"; dataset_path := "esb/datasets";
               dataset := "librispeech"; split := "test"; device := -1;
               batch_size := 32; max_eval_samples := None;
               streaming := true |} demo_world)).
Proof.
  assert (Hp : parse_args [OptModelId "m"; OptDataset "librispeech"]
               = Some {| model_id := "m"; dataset_path := "esb/datasets";
                         dataset := "librispeech"; split := "test";
                         device := -1; batch_size := 32;
                         max_eval_samples := None; streaming := true |})
    by reflexivity.
  destruct (omitted_options_use_defaults demo_env _ _ demo_world Hp)
    as (Hdev & _ & Hmax).
  split; [exact Hp|]. split.
  - apply Hdev. repeat constructor; simpl; tauto.
  - apply Hmax. repeat constructor; simpl; tauto.
Defined.

(** ** The texts given to the scorer *)

Section ScorerTexts.
Context (E : Env) (args : Args).

(** X20. When the model returns one text for each path it is given, the
    scorer and the manifest writer receive as many predictions as
    references, one pair for each evaluated sample. *)
Theorem scorer_lists_have_equal_length (w : World) :
  (∀ f paths bs, length (transcribe E f paths bs) = length paths) →
  ∃ refs preds,
    WerCompute refs preds ∈ new_events w (main E args w)
    ∧ WriteManifest refs preds (model_id args) (dataset_path args)
        (dataset args) (split args) (durations (sorted_data E args))
      ∈ new_events w (main E args w)
    ∧ length refs = length (eval_dataset E args)
    ∧ length preds = length (eval_dataset E args)
    ∧ length (durations (sorted_data E args))
      = length (eval_dataset E args).
Proof.
  intros Hlen.
  exists (references (sorted_data E args)),
    (predictions_of E args (sorted_data E args) (sorted_world E args w)).
  rewrite main_new_events.
  assert (Hn : length (sort_samples (eval_dataset E args))
               = length (eval_dataset E args))
    by (by rewrite (sort_samples_perm (eval_dataset E args))).
  split; [|split; [|split; [|split]]].
  - unfold run_events, report_events, transcribe_call. find_event.
  - unfold run_events, report_events, transcribe_call. find_event.
  - unfold sorted_data. cbn [references]. by rewrite length_fmap.
  - unfold predictions_of, transcriptions_of. rewrite length_fmap, Hlen.
    unfold sorted_data. cbn [audio_filepaths]. by rewrite length_fmap.
  - unfold sorted_data. cbn [durations]. by rewrite length_fmap.
Qed.

(** X21. The normaliser is called once for each text the model returned, in
    the order of these texts, after the second reading of the clock and
    before the manifest is written, and nowhere else in the run. *)
Theorem normalizer_called_per_transcription (w : World) :
  ∃ all_data w' raw pre end_time post,
    load_and_sort E args w = Ok all_data w'
    ∧ raw = transcribe E (fs w') (audio_filepaths all_data) (batch_size args)
    ∧ new_events w (main E args w)
      = pre ++ Time end_time :: (Normalizer <$> raw)
        ++ WriteManifest (references all_data) (normalizer E <$> raw)
             (model_id args) (dataset_path args) (dataset args)
             (split args) (durations all_data)
           :: post
    ∧ Forall (λ e, ¬ is_normalizer e) pre
    ∧ Forall (λ e, ¬ is_normalizer e) post.
Proof.
  set (ad := sorted_data E args). set (sw := sorted_world E args w).
  exists ad, sw, (transcriptions_of E args ad sw).
  exists (prep_events E args w
          ++ Time (start_time_of E sw) :: transcribe_call args ad).
  exists (end_time_of E args ad sw).
  exists ([Print [PStr "Results saved at path:";
                  PStr (abspath E
                          (write_manifest E (references ad)
                             (predictions_of E args ad sw) (model_id args)
                             (dataset_path args) (dataset args)
                             (split args) (durations ad)))];
           WerCompute (references ad) (predictions_of E args ad sw)]
          ++ (if Qeq_bool (total_time_of E args w) 0 then []
              else result_prints E args ad sw)).
  split; [apply load_and_sort_run|]. split; [done|].
  split; [|split].
  - rewrite main_new_events.
    unfold run_events, report_events, transcribe_call, predictions_of.
    norm_trace. reflexivity.
  - segment.
  - segment.
Qed.

End ScorerTexts.

Lemma scorer_lists_have_equal_length_witness :
  (∀ f paths bs, length (transcribe demo_env f paths bs) = length paths)
  ∧ ∃ refs preds,
    WerCompute refs preds
    ∈ new_events demo_world (main demo_env demo_args demo_world)
    ∧ length refs = 3%nat ∧ length preds = 3%nat.
Proof.
  assert (H : ∀ f paths bs,
            length (transcribe demo_env f paths bs) = length paths).
  { intros f paths bs. simpl. apply length_fmap. }
  split; [exact H|].
  destruct (scorer_lists_have_equal_length demo_env demo_args demo_world H)
    as (refs & preds & Hw & _ & Hr & Hp & _).
  exists refs, preds. split; [exact Hw|]. split; [exact Hr|exact Hp].
Defined.

(** ** The clock and the two result lines *)

Section ClockAndResults.
Context (E : Env) (args : Args).

(** X22. A run reads the clock exactly twice.  Between the two readings it
    enters the two context managers, calls [transcribe] and leaves them,
    and does nothing else: every audio file is written before the first
    reading, and the normaliser, the manifest writer and the scorer are
    called after the second. *)
Theorem clock_read_around_transcribe (w : World) :
  ∃ all_data w' before after start_time end_time,
    load_and_sort E args w = Ok all_data w'
    ∧ trace w' = trace w ++ before
    ∧ start_time = clock E (trace w')
    ∧ end_time
      = clock E (trace w'
                 ++ [Time start_time; AutocastEnter; InferenceModeEnter;
                     Transcribe (audio_filepaths all_data) (batch_size args);
                     InferenceModeExit; AutocastExit])
    ∧ new_events w (main E args w)
      = before
        ++ [Time start_time; AutocastEnter; InferenceModeEnter;
            Transcribe (audio_filepaths all_data) (batch_size args);
            InferenceModeExit; AutocastExit; Time end_time]
        ++ after
    ∧ Forall (λ e, ¬ is_time e ∧ ¬ is_normalizer e
                   ∧ ¬ is_write_manifest e ∧ ¬ is_wer_compute e) before
    ∧ Forall (λ e, ¬ is_time e ∧ ¬ is_soundfile_write e) after.
Proof.
  set (ad := sorted_data E args). set (sw := sorted_world E args w).
  exists ad, sw, (prep_events E args w).
  exists ((Normalizer <$> transcriptions_of E args ad sw)
          ++ [WriteManifest (references ad) (predictions_of E args ad sw)
                (model_id args) (dataset_path args) (dataset args)
                (split args) (durations ad);
              Print [PStr "Results saved at path:";
                     PStr (abspath E
                             (write_manifest E (references ad)
                                (predictions_of E args ad sw) (model_id args)
                                (dataset_path args) (dataset args)
                                (split args) (durations ad)))];
              WerCompute (references ad) (predictions_of E args ad sw)]
          ++ (if Qeq_bool (total_time_of E args w) 0 then []
              else result_prints E args ad sw)).
  exists (start_time_of E sw), (end_time_of E args ad sw).
  split; [apply load_and_sort_run|].
  split; [apply sorted_world_trace|].
  split; [done|]. split; [done|].
  split; [|split].
  - rewrite main_new_events. unfold run_events, report_events,
      transcribe_call.
    norm_trace. reflexivity.
  - segment.
  - segment.
Qed.

(** X23. A run that ends normally ends with two calls of [print], the line
    of RTFX and then the line of WER with its percent sign, each with one
    number; no call before them prints a number, and the scorer is called
    before them. *)
Theorem two_result_lines_last (w w_end : World) :
  main E args w = Ok tt w_end →
  ∃ before rtfx wer,
    new_events w (main E args w)
    = before ++ [Print [PStr "RTFX:"; PNum rtfx];
                 Print [PStr "WER:"; PNum wer; PStr "%"]]
    ∧ Forall (λ e, ¬ is_result_print e) before
    ∧ Exists is_wer_compute before.
Proof.
  intros Hok.
  set (ad := sorted_data E args). set (sw := sorted_world E args w).
  assert (Hnz : Qeq_bool (total_time_of E args w) 0 = false).
  { rewrite main_outcome in Hok.
    by destruct (Qeq_bool (total_time_of E args w) 0). }
  exists (prep_events E args w ++ report_events E args ad sw),
    (rtfx_of E args ad sw), (wer_of E args ad sw).
  split; [|split].
  - rewrite main_new_events. unfold run_events. rewrite Hnz.
    unfold result_prints. fold ad sw. by rewrite <- (assoc_L (++)).
  - segment.
  - apply Exists_app. right. unfold report_events.
    rewrite app_comm_cons, !Exists_app. right. right. right.
    do 2 apply Exists_cons_tl. by apply Exists_cons_hd.
Qed.

End ClockAndResults.

Lemma two_result_lines_last_witness :
  main demo_env demo_args demo_world
    = Ok tt (world_of (main demo_env demo_args demo_world))
  ∧ ∃ before rtfx wer,
    new_events demo_world (main demo_env demo_args demo_world)
    = before ++ [Print [PStr "RTFX:"; PNum rtfx];
                 Print [PStr "WER:"; PNum wer; PStr "%"]]
    ∧ Forall (λ e, ¬ is_result_print e) before.
Proof.
  assert (H : main demo_env demo_args demo_world
              = Ok tt (world_of (main demo_env demo_args demo_world)))
    by (vm_compute; reflexivity).
  split; [exact H|].
  destruct (two_result_lines_last demo_env demo_args demo_world _ H)
    as (before & rtfx & wer & Hev & Hno & _).
  exists before, rtfx, wer. split; [exact Hev|exact Hno].
Defined.
